(** * json2xml: the JSON-to-XML token converter

    A shallow embedding of [convert.go].  The converter is a pull-based state
    machine: every call of [Token] yields one XML token, pulling zero, one or
    two JSON tokens from the decoder it wraps.  [Convert] drives it against
    an XML encoder until the decoder reports [io.EOF]. *)

From Stdlib Require Import String Ascii ZArith Bool Arith Lia List.
Import ListNotations.
Open Scope string_scope.
Open Scope list_scope.
Set Warnings "-register-all".

(** ** Errors *)

(** The three package errors, [io.EOF], and any other error value a
    collaborator (decoder or encoder) may hand back. *)
Inductive error : Type :=
| ErrInvalidKey
| ErrUnknownToken
| ErrInvalidToken
| EOF
| ErrForeign (msg : string).

Definition is_EOF (e : error) : bool :=
  match e with EOF => true | _ => false end.

(** ** Type tags *)

Inductive ttype : Type :=
| typObject | typArray | typBool | typNumber | typString | typNull.

(** [ttype] is a byte numbered by [iota]. *)
Definition ttype_iota (t : ttype) : nat :=
  match t with
  | typObject => 0 | typArray => 1 | typBool => 2
  | typNumber => 3 | typString => 4 | typNull => 5
  end.

Definition ttype_eqb (a b : ttype) : bool :=
  Nat.eqb (ttype_iota a) (ttype_iota b).

Definition ttypeNames_table : list string :=
  ["object"; "array"; "boolean"; "number"; "string"; "null"].

Definition ttypeNames (t : ttype) : string :=
  nth (ttype_iota t) ttypeNames_table "".

(** The scalars that carry text: boolean, number, string. *)
Definition has_text (t : ttype) : bool :=
  match t with
  | typBool | typNumber | typString => true
  | _ => false
  end.

(** The two containers: object and array. *)
Definition is_container (t : ttype) : bool :=
  match t with
  | typObject | typArray => true
  | _ => false
  end.

(** Nothing, or a container, is on top of the stack. *)
Definition is_container_top (top : option ttype) : bool :=
  match top with
  | Some t => is_container t
  | None => true
  end.

Definition cTrue : string := "true".
Definition cFalse : string := "false".

(** ** XML tokens (the part of [encoding/xml] the converter produces) *)

Record xml_Name : Type := { Space : string; Local : string }.
Record xml_Attr : Type := { Name : xml_Name; Value : string }.

Inductive xml_Token : Type :=
| StartElement (name : xml_Name) (attr : list xml_Attr)
| EndElement (name : xml_Name)
| CharData (text : string).

(** ** Runes of the four delimiters *)

Definition rune (a : ascii) : Z := Z.of_N (N_of_ascii a).

Definition lbrace : Z := rune "{".
Definition rbrace : Z := rune "}".
Definition lbrack : Z := rune "[".
Definition rbrack : Z := rune "]".

(** What one call of [Converter.Token] hands back: [(tok, nil)],
    [(nil, err)], or a run-time panic (index out of range). *)
Inductive result : Type :=
| Ret (tok : xml_Token)
| Fail (err : error)
| Panic.

(** What [Convert] hands back. *)
Inductive convert_result : Type :=
| Done (err : option error)
| Panicked.

(** ** The elements of the package comment (lines 3-29) *)

(** [<typ>], or [<typ name="k">] for the member [k] of an object. *)
Definition start (typ : ttype) (keyName : option string) : xml_Token :=
  StartElement {| Space := ""; Local := ttypeNames typ |}
    match keyName with
    | Some k => [ {| Name := {| Space := ""; Local := "name" |};
                     Value := k |} ]
    | None => []
    end.

(** [</typ>] *)
Definition stop (typ : ttype) : xml_Token :=
  EndElement {| Space := ""; Local := ttypeNames typ |}.

(** ** Observations on an XML token sequence *)

Definition xml_Name_eqb (a b : xml_Name) : bool :=
  String.eqb (Space a) (Space b) && String.eqb (Local a) (Local b).

Definition is_start (tk : xml_Token) : bool :=
  match tk with StartElement _ _ => true | _ => false end.

Definition is_end (tk : xml_Token) : bool :=
  match tk with EndElement _ => true | _ => false end.

Definition count_start (out : list xml_Token) : nat :=
  List.length (filter is_start out).

Definition count_end (out : list xml_Token) : nat :=
  List.length (filter is_end out).

(** [nest open out] reads [out] against the names of the start-elements
    not yet matched, most recent first.  An end-element must carry the name
    of the most recent one; [None] reports a violation, [Some open'] the
    names still unmatched after [out]. *)
Fixpoint nest (open : list xml_Name) (out : list xml_Token)
  : option (list xml_Name) :=
  match out with
  | [] => Some open
  | StartElement name _ :: out => nest (name :: open) out
  | CharData _ :: out => nest open out
  | EndElement name :: out =>
      match open with
      | [] => None
      | recent :: open =>
          if xml_Name_eqb recent name then nest open out else None
      end
  end.

(** The names of the elements a stack holds open, innermost first. *)
Definition open_names (st : list ttype) : list xml_Name :=
  rev (map (fun typ => {| Space := ""; Local := ttypeNames typ |}) st).

(** A decoder in [UseNumber] mode never yields a [float64]: the concrete
    runs below use token sequences without floating-point values. *)
Definition UseNumber : Type := Empty_set.

Definition FormatFloat_UseNumber (f : UseNumber) (fmt : ascii)
           (prec bitSize : Z) : string :=
  match f with end.

(** ** The converter *)

(** [Converter] over a decoder of type [J]: the decoder, the nesting stack
    (innermost last, as [append] builds it) and the pending char-data. *)
Record Converter (J : Type) : Type := mkConverter
  { decoder : J;
    types : list ttype;
    data : option string }.

Arguments mkConverter {J} decoder types data.
Arguments decoder {J} c.
Arguments types {J} c.
Arguments data {J} c.

Section Json2Xml.

(** [float64] and [strconv.FormatFloat] belong to the Go runtime and its
    standard library; the converter only passes values through them. *)
Context {float64 : Type}.
Variable FormatFloat : float64 -> ascii -> Z -> Z -> string.

(** ** JSON tokens: the dynamic types a [json.Token] can hold *)
Inductive json_Token : Type :=
| JDelim (r : Z)
| JBool (b : bool)
| JFloat64 (f : float64)
| JNumber (s : string)
| JString (s : string)
| JNil
| JOther (dyn : string).

(** The tokens a JSON value can begin with: object-open, array-open,
    boolean, number, string, null. *)
Definition value_start (token : json_Token) : bool :=
  match token with
  | JDelim r => (r =? lbrace)%Z || (r =? lbrack)%Z
  | JBool _ | JFloat64 _ | JNumber _ | JString _ | JNil => true
  | JOther _ => false
  end.

(** ** The two collaborator interfaces *)

Class JSONDecoder (J : Type) : Type :=
  { decoder_Token : J -> (json_Token + error) * J }.

Class XMLEncoder (X : Type) : Type :=
  { EncodeToken : X -> xml_Token -> option error * X }.

Section Converter.

Context {J : Type} `{JSONDecoder J}.

Definition NewConverter (j : J) : Converter J :=
  {| decoder := j; types := []; data := None |}.

Definition set_decoder (c : Converter J) (j : J) : Converter J :=
  {| decoder := j; types := types c; data := data c |}.
Definition set_types (c : Converter J) (ts : list ttype) : Converter J :=
  {| decoder := decoder c; types := ts; data := data c |}.
Definition set_data (c : Converter J) (d : option string) : Converter J :=
  {| decoder := decoder c; types := types c; data := d |}.

(** [c.types[len(c.types)-1]]; [None] is the index-out-of-range panic. *)
Definition types_last (c : Converter J) : option ttype :=
  nth_error (types c) (length (types c) - 1).

Definition outputStart (c : Converter J) (typ : ttype)
           (keyName : option string) : xml_Token * Converter J :=
  let c := set_types c (types c ++ [typ]) in
  let attr :=
    match keyName with
    | Some k => [ {| Name := {| Space := ""; Local := "name" |};
                     Value := k |} ]
    | None => []
    end in
  (StartElement {| Space := ""; Local := ttypeNames typ |} attr, c).

Definition outputType (c : Converter J) (typ : ttype) (d : option string)
           (keyName : option string) : xml_Token * Converter J :=
  let c := set_data c d in
  outputStart c typ keyName.

Definition outputEnd (c : Converter J) : result * Converter J :=
  match types_last c with
  | None => (Panic, c)
  | Some typ =>
      let c := set_types c (firstn (length (types c) - 1) (types c)) in
      (Ret (EndElement {| Space := ""; Local := ttypeNames typ |}), c)
  end.

Definition ret (p : xml_Token * Converter J) : result * Converter J :=
  (Ret (fst p), snd p).

(** [token != json.Delim('}')] *)
Definition not_rbrace (token : json_Token) : bool :=
  match token with
  | JDelim r => negb (r =? rbrace)%Z
  | _ => true
  end.

(** A close delimiter: the top of the stack must be [want]. *)
Definition close (c : Converter J) (want : ttype) : result * Converter J :=
  if Nat.eqb (length (types c)) 0 then (Fail ErrInvalidToken, c)
  else match types_last c with
       | None => (Panic, c)
       | Some t => if negb (ttype_eqb t want)
                   then (Fail ErrInvalidToken, c)
                   else outputEnd c
       end.

(** The type switch that closes [Token] (lines 135-174). *)
Definition dispatch (c : Converter J) (token : json_Token)
           (keyName : option string) : result * Converter J :=
  match token with
  | JDelim r =>
      if (r =? lbrace)%Z then ret (outputStart c typObject keyName)
      else if (r =? lbrack)%Z then ret (outputStart c typArray keyName)
      else if (r =? rbrace)%Z then close c typObject
      else if (r =? rbrack)%Z then close c typArray
      else (Fail ErrUnknownToken, c)
  | JBool b =>
      if b then ret (outputType c typBool (Some cTrue) keyName)
      else ret (outputType c typBool (Some cFalse) keyName)
  | JFloat64 f =>
      let number := FormatFloat f "f"%char (-1)%Z 64%Z in
      ret (outputType c typNumber (Some number) keyName)
  | JNumber s => ret (outputType c typNumber (Some s) keyName)
  | JString s => ret (outputType c typString (Some s) keyName)
  | JNil => ret (outputType c typNull None keyName)
  | JOther _ => (Fail ErrUnknownToken, c)
  end.

(** Key extraction (lines 121-133): [token] has just been pulled and the
    top of the stack is an open object. *)
Definition member (c : Converter J) (token : json_Token)
  : result * Converter J :=
  match token with
  | JString tokenStr =>
      let (r, j) := decoder_Token (decoder c) in
      let c := set_decoder c j in
      match r with
      | inr err => (Fail err, c)
      | inl token => dispatch c token (Some tokenStr)
      end
  | _ => (Fail ErrInvalidKey, c)
  end.

(** [Token] from line 114 on: nothing is pending, a JSON token is due. *)
Definition pull (c : Converter J) : result * Converter J :=
  let (r, j) := decoder_Token (decoder c) in
  let c := set_decoder c j in
  match r with
  | inr err => (Fail err, c)
  | inl token =>
      if Nat.ltb 0 (length (types c)) then
        match types_last c with
        | None => (Panic, c)
        | Some t =>
            if ttype_eqb t typObject && not_rbrace token
            then member c token
            else dispatch c token None
        end
      else dispatch c token None
  end.

Definition Token (c : Converter J) : result * Converter J :=
  match data c with
  | Some d => (Ret (CharData d), set_data c None)
  | None =>
      if Nat.ltb 0 (length (types c)) then
        match types_last c with
        | None => (Panic, c)
        | Some typObject | Some typArray => pull c
        | Some _ => outputEnd c
        end
      else pull c
  end.

(** ** The driving loop *)

Section Convert.

Context {X : Type} `{XMLEncoder X}.

(** The [for] loop of [Convert]; [fuel] bounds the number of
    iterations, [None] means the bound was reached. *)
Fixpoint Convert_loop (fuel : nat) (c : Converter J) (x : X)
  : option (convert_result * X) :=
  match fuel with
  | O => None
  | S fuel =>
      match Token c with
      | (Panic, _) => Some (Panicked, x)
      | (Fail err, _) =>
          if is_EOF err then Some (Done None, x)
          else Some (Done (Some err), x)
      | (Ret tk, c) =>
          match EncodeToken x tk with
          | (Some err, x) => Some (Done (Some err), x)
          | (None, x) => Convert_loop fuel c x
          end
      end
  end.

Definition Convert (fuel : nat) (j : J) (x : X)
  : option (convert_result * X) :=
  Convert_loop fuel {| decoder := j; types := []; data := None |} x.

(** What an encoder makes of a sequence of tokens handed to it one by
    one: it stops at the first token it refuses. *)
Fixpoint feed (x : X) (out : list xml_Token) : option error * X :=
  match out with
  | [] => (None, x)
  | tk :: out =>
      match EncodeToken x tk with
      | (Some err, x) => (Some err, x)
      | (None, x) => feed x out
      end
  end.

End Convert.

(** ** Runs of the state machine *)

(** [steps c out c']: successive calls of [Token], starting in [c],
    hand back the XML tokens [out] (no error, no panic) and leave the
    converter in [c']. *)
Inductive steps : Converter J -> list xml_Token -> Converter J -> Prop :=
| steps_nil c : steps c [] c
| steps_cons c tk c1 out c2 :
    Token c = (Ret tk, c1) -> steps c1 out c2 -> steps c (tk :: out) c2.

(** The states a converter built by [NewConverter j] can be in, whatever
    the calls of [Token] handed back. *)
Inductive reachable (j : J) : Converter J -> Prop :=
| reach_new : reachable j (NewConverter j)
| reach_Token c r c' :
    reachable j c -> Token c = (r, c') -> reachable j c'.

(** Pending char-data always belongs to the scalar on top of the stack. *)
Definition pending_ok (c : Converter J) : Prop :=
  data c <> None ->
  types_last c = Some typBool \/ types_last c = Some typNumber \/
  types_last c = Some typString.

(** Below the top of the stack there are open containers only. *)
Definition containers_below (c : Converter J) : Prop :=
  Forall (fun t => is_container t = true)
         (firstn (length (types c) - 1) (types c)).

(** What one call of [Token] may do to the stack and the pending
    slot, by the kind of its result. *)
Definition effect (c : Converter J) (r : result) (c' : Converter J) : Prop :=
  match r with
  | Ret (CharData d) =>
      data c = Some d /\ data c' = None /\ types c' = types c /\
      decoder c' = decoder c
  | Ret (StartElement name attr) =>
      exists typ, name = {| Space := ""; Local := ttypeNames typ |} /\
                  types c' = types c ++ [typ] /\ data c = None /\
                  if has_text typ then data c' <> None
                  else data c' = None
  | Ret (EndElement name) =>
      exists typ, name = {| Space := ""; Local := ttypeNames typ |} /\
                  types c = types c' ++ [typ] /\
                  data c = None /\ data c' = None
  | Fail err => types c' = types c /\ data c' = data c
  | Panic => False
  end.

(** The four ways the closing type switch can end. *)
Definition dispatched (c : Converter J) (keyName : option string)
           (r : result) (c' : Converter J) : Prop :=
  decoder c' = decoder c /\
  ((exists typ, r = Ret (start typ keyName) /\
                types c' = types c ++ [typ] /\
                if has_text typ then data c' <> None
                else data c' = None) \/
   (exists typ, r = Ret (stop typ) /\ types c = types c' ++ [typ] /\
                data c' = None) \/
   (r = Fail ErrInvalidToken /\ c' = c) \/
   (r = Fail ErrUnknownToken /\ c' = c)).

End Converter.

(** ** Two concrete collaborators *)

(** A decoder that replays a fixed token sequence and then reports
    [io.EOF], as [*json.Decoder] does at the end of its input. *)
#[export] Instance Script : JSONDecoder (list json_Token) :=
  { decoder_Token j :=
      match j with
      | [] => (inr EOF, [])
      | token :: j => (inl token, j)
      end }.

(** An encoder that records every token it is given and never fails. *)
#[export] Instance Recorder : XMLEncoder (list xml_Token) :=
  { EncodeToken x tk := (None, x ++ [tk]) }.

(** An encoder with room for a fixed number of tokens: it records them
    and refuses every token past its capacity. *)
#[export] Instance Limited : XMLEncoder (nat * list xml_Token) :=
  { EncodeToken x tk :=
      match fst x with
      | O => (Some (ErrForeign "short write"), x)
      | S room => (None, (room, snd x ++ [tk]))
      end }.

(** What is left to do over a replayed sequence: three calls at most per
    token still to pull, one per entry of the stack, one for pending
    char-data. *)
Definition progress (c : Converter (list json_Token)) : nat :=
  3 * length (decoder c) + length (types c) +
  match data c with Some _ => 1 | None => 0 end.

(** ** Well-formed JSON documents and their token sequences *)

Inductive value : Type :=
| VObject (members : list (string * value))
| VArray (elems : list value)
| VBool (b : bool)
| VFloat (f : float64)
| VNumber (s : string)
| VString (s : string)
| VNull.

(** The tokens a decoder yields for a value: delimiters, keys and
    scalars in document order (commas and colons are not tokens). *)
Fixpoint tokens (v : value) : list json_Token :=
  match v with
  | VObject members =>
      JDelim lbrace
        :: flat_map (fun kv => JString (fst kv) :: tokens (snd kv)) members
        ++ [JDelim rbrace]
  | VArray elems =>
      JDelim lbrack :: flat_map tokens elems ++ [JDelim rbrack]
  | VBool b => [JBool b]
  | VFloat f => [JFloat64 f]
  | VNumber s => [JNumber s]
  | VString s => [JString s]
  | VNull => [JNil]
  end.

Definition key_tokens (keyName : option string) : list json_Token :=
  match keyName with Some k => [JString k] | None => [] end.

(** Where a value may stand: after its key inside an object, or without
    a key inside an array or at the top level. *)
Definition expects (st : list ttype) (keyName : option string) : Prop :=
  match keyName with
  | Some _ => nth_error st (List.length st - 1) = Some typObject
  | None => st = [] \/ nth_error st (List.length st - 1) = Some typArray
  end.

(** The XML of a value, as the package comment lays it out. *)
Fixpoint xml_of (keyName : option string) (v : value) : list xml_Token :=
  match v with
  | VObject members =>
      start typObject keyName
        :: flat_map (fun kv => xml_of (Some (fst kv)) (snd kv)) members
        ++ [stop typObject]
  | VArray elems =>
      start typArray keyName :: flat_map (xml_of None) elems
        ++ [stop typArray]
  | VBool b =>
      [start typBool keyName; CharData (if b then cTrue else cFalse);
       stop typBool]
  | VFloat f =>
      [start typNumber keyName;
       CharData (FormatFloat f "f"%char (-1)%Z 64%Z); stop typNumber]
  | VNumber s => [start typNumber keyName; CharData s; stop typNumber]
  | VString s => [start typString keyName; CharData s; stop typString]
  | VNull => [start typNull keyName; stop typNull]
  end.

(** Induction over values, with the hypothesis for every member and
    every element. *)
Section value_induction.
Variable P : value -> Prop.
Hypothesis HObject :
  forall members, Forall (fun kv => P (snd kv)) members ->
                  P (VObject members).
Hypothesis HArray : forall elems, Forall P elems -> P (VArray elems).
Hypothesis HBool : forall b, P (VBool b).
Hypothesis HFloat : forall f, P (VFloat f).
Hypothesis HNumber : forall s, P (VNumber s).
Hypothesis HString : forall s, P (VString s).
Hypothesis HNull : P VNull.

Fixpoint value_nested_ind (v : value) : P v :=
  match v with
  | VObject members =>
      HObject members
        ((fix go (l : list (string * value))
           : Forall (fun kv => P (snd kv)) l :=
            match l with
            | [] => Forall_nil _
            | kv :: l => Forall_cons kv (value_nested_ind (snd kv)) (go l)
            end) members)
  | VArray elems =>
      HArray elems
        ((fix go (l : list value) : Forall P l :=
            match l with
            | [] => Forall_nil _
            | e :: l => Forall_cons e (value_nested_ind e) (go l)
            end) elems)
  | VBool b => HBool b
  | VFloat f => HFloat f
  | VNumber s => HNumber s
  | VString s => HString s
  | VNull => HNull
  end.
End value_induction.

(** * Facts *)

(** ** The slice operations on the stack *)

Lemma last_snoc (A : Type) (l : list A) (a : A) :
  nth_error (l ++ [a]) (List.length (l ++ [a]) - 1) = Some a.
Proof.
  rewrite length_app; simpl.
  replace (List.length l + 1 - 1) with (List.length l) by lia.
  rewrite nth_error_app2 by lia.
  now rewrite Nat.sub_diag.
Qed.

Lemma init_snoc (A : Type) (l : list A) (a : A) :
  firstn (List.length (l ++ [a]) - 1) (l ++ [a]) = l.
Proof.
  rewrite length_app; simpl.
  replace (List.length l + 1 - 1) with (List.length l + 0) by lia.
  now rewrite firstn_app_2, app_nil_r.
Qed.

Lemma last_some_snoc (A : Type) (l : list A) (a : A) :
  nth_error l (List.length l - 1) = Some a ->
  l = firstn (List.length l - 1) l ++ [a].
Proof.
  destruct l as [|x l _] using rev_ind; [discriminate|].
  rewrite last_snoc, init_snoc. now intros [= ->].
Qed.

Lemma last_none_nil (A : Type) (l : list A) :
  nth_error l (List.length l - 1) = None -> l = [].
Proof.
  destruct l as [|x l _] using rev_ind; [reflexivity|].
  now rewrite last_snoc.
Qed.

Lemma ltb_0_length_false (A : Type) (l : list A) :
  Nat.ltb 0 (List.length l) = false -> l = [].
Proof.
  destruct l; [reflexivity|]. simpl. discriminate.
Qed.

Lemma ttype_eqb_eq (a b : ttype) : ttype_eqb a b = true <-> a = b.
Proof. destruct a, b; cbv; split; congruence. Qed.

Lemma ttypeNames_inj (a b : ttype) : ttypeNames a = ttypeNames b -> a = b.
Proof. destruct a, b; cbv; congruence. Qed.

Section TokenFacts.

Context {J : Type} `{JSONDecoder J}.

Implicit Types (c : Converter J) (r : result).

Lemma outputEnd_effect c r c' :
  outputEnd c = (r, c') ->
  (r = Panic /\ c' = c /\ types c = []) \/
  (exists typ,
      r = Ret (stop typ) /\ types c = types c' ++ [typ] /\
      decoder c' = decoder c /\ data c' = data c).
Proof.
  unfold outputEnd. destruct (types_last c) as [typ|] eqn:E.
  - intros [= <- <-]. right. exists typ. simpl.
    repeat split. now apply last_some_snoc.
  - intros [= <- <-]. left. repeat split. now apply last_none_nil.
Qed.

Lemma close_effect c want r c' :
  data c = None -> close c want = (r, c') ->
  (r = Fail ErrInvalidToken /\ c' = c) \/
  (r = Ret (stop want) /\ types c = types c' ++ [want] /\
   decoder c' = decoder c /\ data c' = None).
Proof.
  intros Hd. unfold close.
  destruct (Nat.eqb _ 0) eqn:E0; [intros [= <- <-]; now left|].
  destruct (types_last c) as [t|] eqn:El.
  - destruct (ttype_eqb t want) eqn:Et; simpl.
    + apply ttype_eqb_eq in Et. subst t. intros Ho.
      apply outputEnd_effect in Ho as [(_ & _ & Hn)|(typ & -> & Ht & Hj & Hd')].
      * apply Nat.eqb_neq in E0. now rewrite Hn in E0.
      * right. unfold types_last in El. rewrite Ht, last_snoc in El.
        injection El as ->. repeat split; congruence.
    + intros [= <- <-]. now left.
  - apply last_none_nil in El. apply Nat.eqb_neq in E0.
    now rewrite El in E0.
Qed.

Lemma types_last_length c :
  Nat.ltb 0 (List.length (types c)) = false -> types_last c = None.
Proof.
  intros E. apply ltb_0_length_false in E. unfold types_last.
  now rewrite E.
Qed.

Lemma types_last_nonempty c :
  Nat.ltb 0 (List.length (types c)) = true -> types_last c <> None.
Proof.
  intros E El. apply last_none_nil in El. now rewrite El in E.
Qed.

(** The length tests of [Token] guard every index: the panic branches
    of the embedding are dead, and the top of the stack alone decides. *)
Lemma pull_unfold c :
  pull c =
  let (r, j) := decoder_Token (decoder c) in
  let c := set_decoder c j in
  match r with
  | inr err => (Fail err, c)
  | inl token =>
      match types_last c with
      | Some typObject =>
          if not_rbrace token then member c token
          else dispatch c token None
      | _ => dispatch c token None
      end
  end.
Proof.
  unfold pull. destruct (decoder_Token (decoder c)) as [[token|err] j];
    [|reflexivity].
  cbv zeta.
  destruct (Nat.ltb 0 _) eqn:E.
  - apply types_last_nonempty in E.
    destruct (types_last (set_decoder c j)) as [[]|]; try reflexivity.
    now destruct E.
  - apply types_last_length in E. now rewrite E.
Qed.

Lemma Token_unfold c :
  Token c =
  match data c with
  | Some d => (Ret (CharData d), set_data c None)
  | None =>
      match types_last c with
      | Some typObject | Some typArray | None => pull c
      | Some _ => outputEnd c
      end
  end.
Proof.
  unfold Token. destruct (data c); [reflexivity|].
  destruct (Nat.ltb 0 _) eqn:E.
  - apply types_last_nonempty in E.
    destruct (types_last c) as [[]|]; try reflexivity. now destruct E.
  - apply types_last_length in E. now rewrite E.
Qed.

Lemma dispatch_effect c token keyName r c' :
  data c = None -> dispatch c token keyName = (r, c') ->
  dispatched c keyName r c'.
Proof.
  intros Hd. unfold dispatch.
  assert (Hstart : forall typ d,
             (has_text typ = false <-> d = None) ->
             ret (outputType c typ d keyName) = (r, c') ->
             dispatched c keyName r c').
  { intros typ d Hnull [= <- <-]. split; [reflexivity|]. left.
    exists typ. repeat split. simpl. destruct Hnull as [H1 H2].
    destruct (has_text typ), d; try discriminate; try reflexivity.
    - now specialize (H2 eq_refl).
    - now apply H1. }
  assert (Hclose : forall want,
             close c want = (r, c') -> dispatched c keyName r c').
  { intros want Hc.
    apply close_effect in Hc as [[-> ->]|(-> & Ht & Hj & Hd')]; trivial.
    - split; [reflexivity|]. right; right; now left.
    - split; [assumption|]. right; left. now exists want. }
  assert (Hopen : forall typ,
             has_text typ = false ->
             ret (outputStart c typ keyName) = (r, c') ->
             dispatched c keyName r c').
  { intros typ Ht [= <- <-]. split; [reflexivity|]. left.
    exists typ. repeat split. now rewrite Ht. }
  destruct token as [r0|b|f|s|s| |dyn].
  - destruct (r0 =? lbrace)%Z; [now apply Hopen|].
    destruct (r0 =? lbrack)%Z; [now apply Hopen|].
    destruct (r0 =? rbrace)%Z; [apply Hclose|].
    destruct (r0 =? rbrack)%Z; [apply Hclose|].
    intros [= <- <-]. split; [reflexivity|]. now right; right; right.
  - destruct b; apply Hstart; simpl; split; discriminate.
  - apply Hstart; simpl; split; discriminate.
  - apply Hstart; simpl; split; discriminate.
  - apply Hstart; simpl; split; discriminate.
  - apply Hstart; simpl; split; reflexivity.
  - intros [= <- <-]. split; [reflexivity|]. now right; right; right.
Qed.

Lemma dispatched_effect c keyName r c' :
  data c = None -> dispatched c keyName r c' -> effect c r c'.
Proof.
  intros Hd [_ Hcases].
  destruct Hcases
    as [(typ & -> & Ht & Hp)|[(typ & -> & Ht & Hd')|[[-> ->]|[-> ->]]]];
    simpl; eauto 6.
Qed.

Lemma effect_set_decoder c j r c' :
  data c = None -> effect (set_decoder c j) r c' -> effect c r c'.
Proof.
  intros Hd. destruct r as [[name attr|name|d]|err|]; simpl; trivial.
  intros (He & _). congruence.
Qed.

Lemma member_effect c token r c' :
  data c = None -> member c token = (r, c') -> effect c r c'.
Proof.
  intros Hd. unfold member.
  destruct token as [r0|b|f|s|key| |dyn];
    try (intros [= <- <-]; now split).
  destruct (decoder_Token (decoder c)) as [[token|err] j].
  - intros Hx. apply dispatch_effect in Hx; [|assumption].
    apply effect_set_decoder with j; [assumption|].
    eapply dispatched_effect; [exact Hd | exact Hx].
  - intros [= <- <-]. now split.
Qed.

Lemma pull_effect c r c' :
  data c = None -> pull c = (r, c') -> effect c r c'.
Proof.
  intros Hd. rewrite pull_unfold.
  destruct (decoder_Token (decoder c)) as [[token|err] j]; cbv zeta.
  - assert (Hdis : dispatch (set_decoder c j) token None = (r, c') ->
                   effect c r c').
    { intros Hx. apply dispatch_effect in Hx; [|assumption].
      apply effect_set_decoder with j; [assumption|].
      eapply dispatched_effect; [exact Hd | exact Hx]. }
    destruct (types_last (set_decoder c j)) as [[]|]; trivial.
    destruct (not_rbrace token); trivial.
    intros Hm. apply effect_set_decoder with j; [assumption|].
    eapply member_effect; [exact Hd | exact Hm].
  - intros [= <- <-]. now split.
Qed.

Lemma Token_effect c r c' : Token c = (r, c') -> effect c r c'.
Proof.
  rewrite Token_unfold. destruct (data c) as [d|] eqn:Hd.
  { intros [= <- <-]. simpl. now repeat split. }
  assert (Hend : types_last c <> None -> outputEnd c = (r, c') ->
                 effect c r c').
  { intros Hl Ho.
    apply outputEnd_effect in Ho as [(_ & _ & Hn)|(typ & -> & Ht & _ & Hd')].
    - unfold types_last in Hl. now rewrite Hn in Hl.
    - simpl. exists typ. repeat split; congruence. }
  destruct (types_last c) as [[]|]; try (now apply pull_effect);
    now apply Hend.
Qed.

Lemma Token_never_panics c : fst (Token c) <> Panic.
Proof.
  destruct (Token c) as [r c'] eqn:E. apply Token_effect in E.
  simpl. now intros ->.
Qed.

(** ** Invariants of the reachable states *)

Lemma Token_pending_ok c r c' :
  Token c = (r, c') -> pending_ok c -> pending_ok c'.
Proof.
  rewrite Token_unfold. unfold pending_ok.
  destruct (data c) as [d|] eqn:Hd.
  { intros [= <- <-] _ Hx. now destruct Hx. }
  intros HT _.
  assert (Hdis : forall c0 token keyName,
             data c0 = None ->
             dispatch c0 token keyName = (r, c') ->
             data c' <> None ->
             types_last c' = Some typBool \/
             types_last c' = Some typNumber \/
             types_last c' = Some typString).
  { intros c0 token keyName Hd0 Hx.
    apply dispatch_effect in Hx as [_ Hx]; [|assumption].
    destruct Hx as [(typ & _ & Ht & Hp)|[(typ & _ & _ & Hd')|[[_ ->]|[_ ->]]]];
      try congruence.
    intros Hn. unfold types_last. rewrite Ht, last_snoc.
    destruct typ; simpl in Hp; auto; congruence. }
  assert (Hend : outputEnd c = (r, c') -> data c' <> None ->
                 types_last c' = Some typBool \/
                 types_last c' = Some typNumber \/
                 types_last c' = Some typString).
  { intros Ho.
    apply outputEnd_effect in Ho as [(_ & -> & _)|(typ & _ & _ & _ & Hd')];
      congruence. }
  assert (Hpull : pull c = (r, c') -> data c' <> None ->
                  types_last c' = Some typBool \/
                  types_last c' = Some typNumber \/
                  types_last c' = Some typString).
  { rewrite pull_unfold.
    destruct (decoder_Token (decoder c)) as [[token|err] j]; cbv zeta.
    - destruct (types_last (set_decoder c j)) as [[]|];
        try (now apply Hdis).
      destruct (not_rbrace token); [|now apply Hdis].
      unfold member. destruct token; try (now intros [= <- <-]).
      destruct (decoder_Token (decoder (set_decoder c j)))
        as [[token|err] j'].
      + now apply Hdis.
      + now intros [= <- <-].
    - now intros [= <- <-]. }
  destruct (types_last c) as [[]|]; auto.
Qed.

Lemma reachable_pending_ok j c : reachable j c -> pending_ok c.
Proof.
  induction 1 as [|c r c' _ IH HT].
  - intros Hx. now destruct Hx.
  - now apply Token_pending_ok with c r.
Qed.

(** With an open container on top of the stack nothing is pending. *)
Lemma reachable_container_idle j c :
  reachable j c ->
  types_last c = Some typObject \/ types_last c = Some typArray ->
  data c = None.
Proof.
  intros Hr Hl. apply reachable_pending_ok in Hr.
  destruct (data c) eqn:Hd; [|reflexivity].
  unfold pending_ok in Hr. rewrite Hd in Hr.
  destruct Hr as [Hx|[Hx|Hx]]; [discriminate| | |];
    destruct Hl; congruence.
Qed.

(** ** Closing a container *)

Lemma close_mismatch c t want :
  types_last c = Some t -> t <> want ->
  close c want = (Fail ErrInvalidToken, c).
Proof.
  intros Hl Hne. unfold close. rewrite Hl.
  destruct (Nat.eqb _ 0); [reflexivity|].
  destruct (ttype_eqb t want) eqn:E; [|reflexivity].
  apply ttype_eqb_eq in E. contradiction.
Qed.

Lemma close_match c t :
  types_last c = Some t -> close c t = outputEnd c.
Proof.
  intros Hl. unfold close. rewrite Hl.
  destruct (Nat.eqb _ 0) eqn:E.
  - apply Nat.eqb_eq in E. unfold types_last in Hl.
    destruct (types c); [discriminate Hl|discriminate E].
  - replace (ttype_eqb t t) with true; [reflexivity|].
    symmetry. now apply ttype_eqb_eq.
Qed.

Lemma close_empty c want :
  types c = [] -> close c want = (Fail ErrInvalidToken, c).
Proof. intros E. unfold close. now rewrite E. Qed.

(** ** The member of an open object *)

Lemma Token_in_object c token j :
  data c = None -> types_last c = Some typObject ->
  decoder_Token (decoder c) = (inl token, j) ->
  not_rbrace token = true ->
  Token c = member (set_decoder c j) token.
Proof.
  intros Hd Hl Hj Hn. rewrite Token_unfold, Hd, Hl, pull_unfold, Hj.
  cbv zeta. change (types_last (set_decoder c j)) with (types_last c).
  now rewrite Hl, Hn.
Qed.

Lemma Token_member_value c key j1 token j2 :
  data c = None -> types_last c = Some typObject ->
  decoder_Token (decoder c) = (inl (JString key), j1) ->
  decoder_Token j1 = (inl token, j2) ->
  Token c = dispatch (set_decoder c j2) token (Some key).
Proof.
  intros Hd Hl Hj1 Hj2.
  rewrite (Token_in_object c (JString key) j1) by easy.
  unfold member. simpl. now rewrite Hj2.
Qed.

Lemma member_not_string c token :
  (forall s, token <> JString s) ->
  member c token = (Fail ErrInvalidKey, c).
Proof.
  intros Hstr. destruct token; try reflexivity. now destruct (Hstr s).
Qed.

Lemma not_rbrace_true token :
  token <> JDelim rbrace -> not_rbrace token = true.
Proof.
  intros Hne. destruct token as [r| | | | | |]; try reflexivity. simpl.
  apply negb_true_iff, Z.eqb_neq. congruence.
Qed.

(** Outside an object the pulled token is the value itself. *)
Lemma Token_plain_value c token j :
  data c = None ->
  types_last c = None \/ types_last c = Some typArray ->
  decoder_Token (decoder c) = (inl token, j) ->
  Token c = dispatch (set_decoder c j) token None.
Proof.
  intros Hd Hl Hj. rewrite Token_unfold, Hd.
  assert (E : pull c = dispatch (set_decoder c j) token None).
  { rewrite pull_unfold, Hj. cbv zeta.
    change (types_last (set_decoder c j)) with (types_last c).
    now destruct Hl as [-> | ->]. }
  now destruct Hl as [-> | ->].
Qed.

(** ** The claims about a single call *)

(** C10.  Whenever [Token] returns an error, the nesting stack and the
    pending char-data slot are exactly what they were before the call
    (only the decoder has advanced). *)
Theorem Token_error_keeps_state c err c' :
  Token c = (Fail err, c') -> types c' = types c /\ data c' = data c.
Proof. intros HT. now apply Token_effect in HT. Qed.


(** C6.  A start-element handed back by [Token] carries an attribute
    exactly when the top of the stack was an open object; the attribute
    then is [name], valued with the key string the decoder yielded,
    unchanged.  With an array on top, or with an empty stack (a
    top-level value), the start-element has no attribute. *)
Theorem Token_name_attribute c name attr c' :
  Token c = (Ret (StartElement name attr), c') ->
  (attr <> [] <-> types_last c = Some typObject) /\
  (types_last c = Some typObject ->
   exists key j,
     decoder_Token (decoder c) = (inl (JString key), j) /\
     attr = [ {| Name := {| Space := ""; Local := "name" |};
                 Value := key |} ]) /\
  (types_last c = Some typArray \/ types c = [] -> attr = []).
Proof.
  intros HT.
  assert (Hd : data c = None).
  { apply Token_effect in HT. simpl in HT.
    now destruct HT as (? & ? & ? & ? & ?). }
  assert (Hplain : forall c0 token,
             data c0 = None ->
             dispatch c0 token None = (Ret (StartElement name attr), c') ->
             attr = []).
  { intros c0 token Hd0 Hx.
    apply dispatch_effect in Hx as [_ Hx]; [|assumption].
    destruct Hx as [(typ & Hr & _)|[(typ & Hr & _)|[[Hr _]|[Hr _]]]];
      try discriminate Hr.
    now injection Hr as _ ->. }
  assert (Hobj : types_last c = Some typObject ->
                 exists key j,
                   decoder_Token (decoder c) = (inl (JString key), j) /\
                   attr = [ {| Name := {| Space := ""; Local := "name" |};
                               Value := key |} ]).
  { intros Hl. revert HT. rewrite Token_unfold, Hd, Hl, pull_unfold.
    destruct (decoder_Token (decoder c)) as [[token|err] j] eqn:Hj;
      [|discriminate].
    cbv zeta. change (types_last (set_decoder c j)) with (types_last c).
    rewrite Hl. destruct (not_rbrace token) eqn:Hn.
    - unfold member. destruct token as [r|b|f|s|key| |dyn];
        try discriminate.
      simpl.
      destruct (decoder_Token j) as [[token|err] j2]; [|discriminate].
      intros Hx. apply dispatch_effect in Hx as [_ Hx]; [|assumption].
      destruct Hx as [(typ & Hr & _)|[(typ & Hr & _)|[[Hr _]|[Hr _]]]];
        try discriminate Hr.
      exists key, j. split; [reflexivity|]. now injection Hr as _ ->.
    - destruct token as [r|b|f|s|key| |dyn]; try discriminate Hn.
      simpl in Hn. apply negb_false_iff, Z.eqb_eq in Hn. subst r.
      simpl. intros Hx. apply close_effect in Hx; [|assumption].
      destruct Hx as [[Hr _]|[Hr _]]; discriminate Hr. }
  assert (Hother : types_last c <> Some typObject -> attr = []).
  { intros Hl. revert HT. rewrite Token_unfold, Hd.
    assert (Hpull : pull c = (Ret (StartElement name attr), c') ->
                    attr = []).
    { rewrite pull_unfold.
      destruct (decoder_Token (decoder c)) as [[token|err] j];
        [|discriminate].
      cbv zeta. change (types_last (set_decoder c j)) with (types_last c).
      destruct (types_last c) as [[]|]; try (now apply Hplain).
      now destruct Hl. }
    assert (Hend : outputEnd c = (Ret (StartElement name attr), c') ->
                   attr = []).
    { intros Ho.
      apply outputEnd_effect in Ho as [(Hr & _)|(typ & Hr & _)];
        discriminate Hr. }
    destruct (types_last c) as [[]|]; auto. }
  split; [split|split].
  - intros Hne. destruct (types_last c) as [[]|] eqn:Hl; trivial;
      destruct Hne; apply Hother; discriminate.
  - intros Hl. destruct (Hobj Hl) as (key & j & _ & ->). discriminate.
  - exact Hobj.
  - intros [Hl|Hn]; apply Hother.
    + rewrite Hl. discriminate.
    + unfold types_last. rewrite Hn. discriminate.
Qed.

(** C8.  With an open object on top of the stack, a pulled token that
    is neither the object-close marker nor a string makes [Token] fail
    with [ErrInvalidKey]. *)
Theorem Token_non_string_key c token j :
  data c = None -> types_last c = Some typObject ->
  decoder_Token (decoder c) = (inl token, j) ->
  token <> JDelim rbrace ->
  (forall s, token <> JString s) ->
  Token c = (Fail ErrInvalidKey,
             {| decoder := j; types := types c; data := data c |}).
Proof.
  intros Hd Hl Hj Hclose Hstr.
  rewrite (Token_in_object c token j); trivial.
  - now apply member_not_string.
  - now apply not_rbrace_true.
Qed.

(** C1 (amended).  In a reachable state whose stack top is an open
    object, an array-close makes [Token] fail without handing back an
    XML token: with [ErrInvalidKey] when it is pulled where the
    member's key is due, with [ErrInvalidToken] when it is pulled as
    the value after a string key.  Stack and pending slot stay as they
    were. *)
Theorem Token_array_close_in_object j0 c :
  reachable j0 c -> types_last c = Some typObject ->
  (forall j,
      decoder_Token (decoder c) = (inl (JDelim rbrack), j) ->
      Token c = (Fail ErrInvalidKey,
                 {| decoder := j; types := types c; data := data c |}))
  /\
  (forall key j1 j2,
      decoder_Token (decoder c) = (inl (JString key), j1) ->
      decoder_Token j1 = (inl (JDelim rbrack), j2) ->
      Token c = (Fail ErrInvalidToken,
                 {| decoder := j2; types := types c; data := data c |})).
Proof.
  intros Hr Hl.
  assert (Hd : data c = None).
  { apply reachable_container_idle with j0; auto. }
  split.
  - intros j Hj. now rewrite (Token_in_object c (JDelim rbrack) j).
  - intros key j1 j2 Hj1 Hj2.
    rewrite (Token_member_value c key j1 (JDelim rbrack) j2); trivial.
    simpl. now apply close_mismatch with typObject.
Qed.

(** C3 (amended).  With an open object on top of the stack and a string
    key extracted, a re-pulled token that cannot start a value and is
    not the object-close marker makes [Token] fail without handing
    back an XML token: with [ErrInvalidToken] for an array-close, with
    [ErrUnknownToken] for every other such token. *)
Theorem Token_bad_member_value c key j1 token j2 :
  data c = None -> types_last c = Some typObject ->
  decoder_Token (decoder c) = (inl (JString key), j1) ->
  decoder_Token j1 = (inl token, j2) ->
  value_start token = false -> token <> JDelim rbrace ->
  Token c =
  (Fail match token with
        | JDelim r => if (r =? rbrack)%Z then ErrInvalidToken
                      else ErrUnknownToken
        | _ => ErrUnknownToken
        end,
   {| decoder := j2; types := types c; data := data c |}).
Proof.
  intros Hd Hl Hj1 Hj2 Hv Hclose.
  rewrite (Token_member_value c key j1 token j2); trivial.
  destruct token as [r|b|f|s|s| |dyn]; try discriminate Hv;
    [|reflexivity].
  simpl in Hv. apply orb_false_iff in Hv as [Hv1 Hv2].
  unfold dispatch. rewrite Hv1, Hv2.
  destruct (r =? rbrace)%Z eqn:E.
  { apply Z.eqb_eq in E. subst r. now destruct Hclose. }
  destruct (r =? rbrack)%Z; [|reflexivity].
  now apply close_mismatch with typObject.
Qed.

(** An object-close after a key is taken as the close of the object. *)
Lemma Token_close_after_key c key j1 j2 :
  data c = None -> types_last c = Some typObject ->
  decoder_Token (decoder c) = (inl (JString key), j1) ->
  decoder_Token j1 = (inl (JDelim rbrace), j2) ->
  Token c =
  (Ret (stop typObject),
   {| decoder := j2;
      types := firstn (List.length (types c) - 1) (types c);
      data := data c |}).
Proof.
  intros Hd Hl Hj1 Hj2.
  rewrite (Token_member_value c key j1 (JDelim rbrace) j2); trivial.
  simpl. rewrite close_match by exact Hl.
  unfold outputEnd.
  change (types_last (set_decoder c j2)) with (types_last c).
  now rewrite Hl.
Qed.

(** The text of a number: a [json.Number] passes through unchanged, a
    [float64] goes through [strconv.FormatFloat(f, 'f', -1, 64)]; the
    call after the start-element hands that text back. *)
Lemma Token_number_text c token keyName text r c' :
  data c = None ->
  (token = JNumber text \/
   exists f, token = JFloat64 f /\
             text = FormatFloat f "f"%char (-1)%Z 64%Z) ->
  dispatch c token keyName = (r, c') ->
  r = Ret (start typNumber keyName) /\
  Token c' = (Ret (CharData text),
              {| decoder := decoder c; types := types c ++ [typNumber];
                 data := None |}).
Proof.
  intros Hd [->|(f & -> & ->)] [= <- <-]; now split.
Qed.

End TokenFacts.

(** ** Runs in general *)

Section Runs.

Context {J : Type} `{JSONDecoder J}.

Implicit Types (c : Converter J).

Lemma steps_app (c c1 c2 : Converter J) out1 out2 :
  steps c out1 c1 -> steps c1 out2 c2 -> steps c (out1 ++ out2) c2.
Proof.
  induction 1 as [|c tk c1 out1 c1' HT _ IH]; intros H2; [exact H2|].
  simpl. apply steps_cons with c1; auto.
Qed.

Lemma steps_one (c c1 : Converter J) tk :
  Token c = (Ret tk, c1) -> steps c [tk] c1.
Proof. intros HT. apply steps_cons with c1; [exact HT|constructor]. Qed.

(** Start-elements emitted so far outnumber end-elements by the growth
    of the stack. *)
Lemma steps_count (c c' : Converter J) out :
  steps c out c' ->
  count_start out + List.length (types c) =
  count_end out + List.length (types c').
Proof.
  induction 1 as [|c tk c1 out c2 HT _ IH]; [reflexivity|].
  apply Token_effect in HT. unfold count_start, count_end in *.
  destruct tk as [name attr|name|d]; simpl in *.
  - destruct HT as (typ & _ & Ht & _). rewrite Ht, length_app in IH.
    simpl in IH. lia.
  - destruct HT as (typ & _ & Ht & _). rewrite Ht, length_app.
    simpl. lia.
  - destruct HT as (_ & _ & Ht & _). rewrite Ht in IH. exact IH.
Qed.

(** The stack is the list of unmatched start-elements: every
    end-element handed back closes the most recent of them. *)
Lemma steps_nest (c c' : Converter J) out :
  steps c out c' ->
  nest (open_names (types c)) out = Some (open_names (types c')).
Proof.
  induction 1 as [|c tk c1 out c2 HT _ IH]; [reflexivity|].
  apply Token_effect in HT.
  destruct tk as [name attr|name|d]; simpl in *.
  - destruct HT as (typ & -> & Ht & _). rewrite <- IH, Ht.
    unfold open_names. now rewrite map_app, rev_app_distr.
  - destruct HT as (typ & -> & Ht & _). rewrite <- IH, Ht.
    unfold open_names. rewrite map_app, rev_app_distr. simpl.
    unfold xml_Name_eqb. simpl. now rewrite String.eqb_refl.
  - destruct HT as (_ & _ & Ht & _). now rewrite <- Ht.
Qed.

(** The driving loop follows a run, feeding a recorder. *)
Lemma Convert_loop_steps (c c' : Converter J) out :
  steps c out c' ->
  forall fuel (x : list xml_Token),
    Convert_loop (List.length out + fuel) c x =
    Convert_loop fuel c' (x ++ out).
Proof.
  induction 1 as [|c tk c1 out c2 HT _ IH]; intros fuel x.
  - now rewrite app_nil_r.
  - simpl. rewrite HT, IH. now rewrite <- app_assoc.
Qed.

(** The loop inherits from [Token] that it never panics. *)
Lemma Convert_loop_never_panics (X : Type) (E : XMLEncoder X) fuel :
  forall c (x x' : X), Convert_loop fuel c x <> Some (Panicked, x').
Proof.
  induction fuel as [|fuel IH]; intros c x x'; simpl; [discriminate|].
  pose proof (Token_never_panics c) as Hp.
  destruct (Token c) as [[tk|err|] c1]; simpl in Hp.
  - destruct (EncodeToken x tk) as [[err|] x1]; [discriminate|apply IH].
  - destruct (is_EOF err); discriminate.
  - now destruct Hp.
Qed.

(** C9.  When [Token] reports [io.EOF], [Convert] returns [nil],
    whatever the nesting stack holds: an end of stream met with a
    container still open (where a value or a key is due, or where the
    value of a key is due) is a successful conversion, and so is every
    run of [Convert] that ends on [io.EOF], whatever state it has
    reached. *)
Theorem Convert_EOF_is_success (X : Type) (E : XMLEncoder X) :
  (forall fuel c c' (x : X),
      Token c = (Fail EOF, c') ->
      Convert_loop (S fuel) c x = Some (Done None, x)) /\
  (forall fuel c j (x : X),
      data c = None ->
      types_last c = Some typObject \/ types_last c = Some typArray ->
      decoder_Token (decoder c) = (inr EOF, j) ->
      types c <> [] /\
      Convert_loop (S fuel) c x = Some (Done None, x)) /\
  (forall fuel c key j1 j2 (x : X),
      data c = None -> types_last c = Some typObject ->
      decoder_Token (decoder c) = (inl (JString key), j1) ->
      decoder_Token j1 = (inr EOF, j2) ->
      types c <> [] /\
      Convert_loop (S fuel) c x = Some (Done None, x)) /\
  (forall (j : J) out c c' n,
      steps (NewConverter j) out c ->
      Token c = (Fail EOF, c') ->
      Convert (List.length out + S n) j ([] : list xml_Token) =
      Some (Done None, out)).
Proof.
  assert (Hloop : forall fuel c c' (x : X),
             Token c = (Fail EOF, c') ->
             Convert_loop (S fuel) c x = Some (Done None, x)).
  { intros fuel c c' x HT. simpl. now rewrite HT. }
  assert (Hne : forall c t, types_last c = Some t -> types c <> []).
  { intros c t Hl Hn. unfold types_last in Hl. now rewrite Hn in Hl. }
  split; [exact Hloop|split; [|split]].
  - intros fuel c j x Hd Hl Hj. split.
    { destruct Hl as [Hl|Hl]; now apply Hne in Hl. }
    apply Hloop with (set_decoder c j).
    rewrite Token_unfold, Hd.
    assert (Hp : pull c = (Fail EOF, set_decoder c j)).
    { now rewrite pull_unfold, Hj. }
    now destruct Hl as [-> | ->].
  - intros fuel c key j1 j2 x Hd Hl Hj1 Hj2. split.
    { now apply Hne in Hl. }
    apply Hloop with (set_decoder c j2).
    rewrite (Token_in_object c (JString key) j1); trivial.
    unfold member. simpl. now rewrite Hj2.
  - intros j out c c' n Hs HT. unfold Convert.
    fold (NewConverter j).
    rewrite (Convert_loop_steps _ _ _ Hs (S n) []). simpl.
    now rewrite HT.
Qed.

End Runs.

(** ** Runs over a replayed token sequence *)

Section Scripted.

Implicit Types (st : list ttype) (rest : list json_Token).

Lemma Script_value st keyName token rest :
  expects st keyName ->
  Token (mkConverter (key_tokens keyName ++ token :: rest) st None) =
  dispatch (mkConverter rest st None) token keyName.
Proof.
  destruct keyName as [key|]; simpl; intros He.
  - now rewrite (Token_member_value _ key (token :: rest) token rest).
  - rewrite (Token_plain_value _ token rest); trivial.
    unfold types_last. simpl. destruct He as [->|He]; auto.
Qed.

Lemma Script_end st typ rest :
  typ <> typObject -> typ <> typArray ->
  Token (mkConverter rest (st ++ [typ]) None) =
  (Ret (stop typ), mkConverter rest st None).
Proof.
  intros Ho Ha. rewrite Token_unfold. simpl.
  unfold types_last, outputEnd, types_last. simpl.
  rewrite last_snoc, init_snoc. now destruct typ.
Qed.

Lemma Script_close st typ rest :
  typ = typObject \/ typ = typArray ->
  Token (mkConverter
           (JDelim (match typ with typObject => rbrace | _ => rbrack end)
              :: rest) (st ++ [typ]) None) =
  (Ret (stop typ), mkConverter rest st None).
Proof.
  intros Ht.
  set (c := mkConverter rest (st ++ [typ]) None).
  assert (Hl : types_last c = Some typ).
  { unfold types_last. simpl. now rewrite last_snoc. }
  assert (Hend : close c typ = (Ret (stop typ), mkConverter rest st None)).
  { rewrite close_match by exact Hl.
    unfold outputEnd. rewrite Hl. unfold c. simpl.
    now rewrite init_snoc. }
  rewrite Token_unfold. simpl.
  change (types_last _) with (types_last c). rewrite Hl.
  destruct Ht as [-> | ->]; rewrite pull_unfold; simpl;
    change (types_last _) with (types_last c); rewrite Hl; simpl;
    exact Hend.
Qed.

Lemma expects_snoc_object st key : expects (st ++ [typObject]) (Some key).
Proof. apply last_snoc. Qed.

Lemma expects_snoc_array st : expects (st ++ [typArray]) None.
Proof. right. apply last_snoc. Qed.

(** A value in its place is converted to its XML, and the converter is
    back where it was, with the value's tokens consumed. *)
Lemma value_steps v :
  forall keyName st rest,
    expects st keyName ->
    steps (mkConverter (key_tokens keyName ++ tokens v ++ rest) st None)
          (xml_of keyName v)
          (mkConverter rest st None).
Proof.
  induction v as [members IH|elems IH|b|f|s|s|] using value_nested_ind;
    intros keyName st rest He; simpl tokens; simpl xml_of.
  - (* object *)
    rewrite <- app_comm_cons. apply steps_cons
      with (mkConverter
              ((flat_map (fun kv => JString (fst kv) :: tokens (snd kv))
                         members ++ [JDelim rbrace]) ++ rest)
              (st ++ [typObject]) None).
    { now rewrite Script_value. }
    rewrite <- app_assoc. apply steps_app
      with (mkConverter ([JDelim rbrace] ++ rest)
                        (st ++ [typObject]) None).
    + induction IH as [|[key v] members Hv _ IHm]; [constructor|].
      simpl. rewrite <- app_assoc.
      apply steps_app
        with (mkConverter
                (flat_map (fun kv => JString (fst kv) :: tokens (snd kv))
                          members ++ [JDelim rbrace] ++ rest)
                (st ++ [typObject]) None); [|exact IHm].
      apply (Hv (Some key)). apply expects_snoc_object.
    + apply steps_one. apply (Script_close st typObject). now left.
  - (* array *)
    rewrite <- app_comm_cons. apply steps_cons
      with (mkConverter
              ((flat_map tokens elems ++ [JDelim rbrack]) ++ rest)
              (st ++ [typArray]) None).
    { now rewrite Script_value. }
    rewrite <- app_assoc. apply steps_app
      with (mkConverter ([JDelim rbrack] ++ rest)
                        (st ++ [typArray]) None).
    + induction IH as [|v elems Hv _ IHe]; [constructor|].
      simpl. rewrite <- app_assoc.
      apply steps_app
        with (mkConverter
                (flat_map tokens elems ++ [JDelim rbrack] ++ rest)
                (st ++ [typArray]) None); [|exact IHe].
      apply (Hv None). apply expects_snoc_array.
    + apply steps_one. apply (Script_close st typArray). now right.
  - (* boolean *)
    cbn [app].
    apply steps_cons
      with (mkConverter rest (st ++ [typBool])
                        (Some (if b then cTrue else cFalse))).
    { rewrite Script_value by exact He. now destruct b. }
    apply steps_cons with (mkConverter rest (st ++ [typBool]) None);
      [reflexivity|].
    apply steps_one. now apply Script_end.
  - (* float64 *)
    cbn [app].
    apply steps_cons
      with (mkConverter rest (st ++ [typNumber])
                        (Some (FormatFloat f "f"%char (-1)%Z 64%Z))).
    { now rewrite Script_value. }
    apply steps_cons with (mkConverter rest (st ++ [typNumber]) None);
      [reflexivity|].
    apply steps_one. now apply Script_end.
  - (* json.Number *)
    cbn [app].
    apply steps_cons
      with (mkConverter rest (st ++ [typNumber]) (Some s)).
    { now rewrite Script_value. }
    apply steps_cons with (mkConverter rest (st ++ [typNumber]) None);
      [reflexivity|].
    apply steps_one. now apply Script_end.
  - (* string *)
    cbn [app].
    apply steps_cons
      with (mkConverter rest (st ++ [typString]) (Some s)).
    { now rewrite Script_value. }
    apply steps_cons with (mkConverter rest (st ++ [typString]) None);
      [reflexivity|].
    apply steps_one. now apply Script_end.
  - (* null *)
    cbn [app].
    apply steps_cons with (mkConverter rest (st ++ [typNull]) None).
    { now rewrite Script_value. }
    apply steps_one. now apply Script_end.
Qed.

(** A stream of top-level values, one after the other. *)
Lemma stream_steps (vs : list value) rest :
  steps (mkConverter (flat_map tokens vs ++ rest) [] None)
        (flat_map (xml_of None) vs)
        (mkConverter rest [] None).
Proof.
  induction vs as [|v vs IH]; [constructor|].
  simpl. rewrite <- app_assoc.
  apply steps_app with (mkConverter (flat_map tokens vs ++ rest) [] None);
    [|exact IH].
  apply (value_steps v None). now left.
Qed.

(** C2.  For every stream of well-formed JSON values, [Convert] runs to
    the end of the stream and returns [nil]; the XML tokens it has
    emitted are those of the values, they hold as many start-elements
    as end-elements, and every end-element carries the name of the most
    recent start-element not yet matched, none being left open. *)
Theorem Convert_well_formed_nesting (vs : list value) (n : nat) :
  Convert (List.length (flat_map (xml_of None) vs) + S n)
          (flat_map tokens vs) [] =
  Some (Done None, flat_map (xml_of None) vs) /\
  count_start (flat_map (xml_of None) vs) =
  count_end (flat_map (xml_of None) vs) /\
  nest [] (flat_map (xml_of None) vs) = Some [].
Proof.
  pose proof (stream_steps vs []) as Hs. rewrite app_nil_r in Hs.
  split; [|split].
  - unfold Convert.
    now rewrite (Convert_loop_steps _ _ _ Hs (S n) []).
  - apply steps_count in Hs. simpl in Hs. lia.
  - now apply steps_nest in Hs.
Qed.

(** C5.  Converting the lone value [null] emits exactly two XML tokens,
    the start-element [null] (without attribute) and the end-element
    [null], and returns [nil]; in every state the conversion goes
    through the pending char-data slot is empty. *)
Theorem Convert_null (n : nat) :
  Convert (3 + n) [JNil] [] =
  Some (Done None,
        [StartElement {| Space := ""; Local := "null" |} [];
         EndElement {| Space := ""; Local := "null" |}]) /\
  (forall c, reachable [JNil] c -> data c = None).
Proof.
  split; [reflexivity|].
  intros c Hr.
  assert (Hinv : c = mkConverter [JNil] [] None \/
                 c = mkConverter [] [typNull] None \/
                 c = mkConverter [] [] None).
  { induction Hr as [|c r c' _ IH HT]; [now left|].
    destruct IH as [-> | [-> | ->]]; injection HT as _ <-; auto. }
  now destruct Hinv as [-> | [-> | ->]].
Qed.

End Scripted.

(** ** Further facts about a single call *)

Section MoreTokenFacts.

Context {J : Type} `{JSONDecoder J}.

Implicit Types (c : Converter J) (r : result).

(** A start-element is only handed back with a container, or nothing, on
    top of the stack. *)
Lemma Token_start_top c name attr c' :
  Token c = (Ret (StartElement name attr), c') ->
  types c = [] \/ types_last c = Some typObject \/
  types_last c = Some typArray.
Proof.
  rewrite Token_unfold. destruct (data c); [discriminate|].
  assert (Hend : outputEnd c = (Ret (StartElement name attr), c') -> False).
  { intros Ho. apply outputEnd_effect in Ho as [(Hr & _)|(typ & Hr & _)];
      discriminate Hr. }
  destruct (types_last c) as [[]|] eqn:Hl; intros HT; auto;
    try (now destruct (Hend HT)).
  left. now apply last_none_nil.
Qed.

Lemma outputEnd_top c t :
  types_last c = Some t ->
  outputEnd c =
  (Ret (stop t),
   {| decoder := decoder c;
      types := firstn (List.length (types c) - 1) (types c);
      data := data c |}).
Proof. intros Hl. unfold outputEnd. now rewrite Hl. Qed.

(** Every XML token [Token] hands back is one of the package's: a
    start-element named after a type tag with at most the [name]
    attribute, the end-element of a type tag, or the pending text. *)
Lemma Token_shape c tk c' :
  Token c = (Ret tk, c') ->
  (exists typ keyName, tk = start typ keyName) \/
  (exists typ, tk = stop typ) \/
  (exists d, tk = CharData d /\ data c = Some d).
Proof.
  rewrite Token_unfold. destruct (data c) as [d|] eqn:Hd.
  { intros [= <- <-]. right; right. now exists d. }
  assert (Hdis : forall c0 token keyName,
             data c0 = None ->
             dispatch c0 token keyName = (Ret tk, c') ->
             (exists typ keyName, tk = start typ keyName) \/
             (exists typ, tk = stop typ) \/
             (exists d, tk = CharData d /\ None = Some d)).
  { intros c0 token keyName Hd0 Hx.
    apply dispatch_effect in Hx as [_ Hx]; [|assumption].
    destruct Hx as [(typ & Hr & _)|[(typ & Hr & _)|[[Hr _]|[Hr _]]]];
      try discriminate Hr; injection Hr as ->; eauto. }
  assert (Hend : outputEnd c = (Ret tk, c') ->
                 (exists typ keyName, tk = start typ keyName) \/
                 (exists typ, tk = stop typ) \/
                 (exists d, tk = CharData d /\ None = Some d)).
  { intros Ho. apply outputEnd_effect in Ho as [(Hr & _)|(typ & Hr & _)];
      [discriminate Hr|]. injection Hr as ->. eauto. }
  assert (Hpull : pull c = (Ret tk, c') ->
                  (exists typ keyName, tk = start typ keyName) \/
                  (exists typ, tk = stop typ) \/
                  (exists d, tk = CharData d /\ None = Some d)).
  { rewrite pull_unfold.
    destruct (decoder_Token (decoder c)) as [[token|err] j]; cbv zeta;
      [|discriminate].
    destruct (types_last (set_decoder c j)) as [[]|]; try (now apply Hdis).
    destruct (not_rbrace token); [|now apply Hdis].
    unfold member. destruct token; try discriminate.
    destruct (decoder_Token (decoder (set_decoder c j))) as [[token|err] j'];
      [now apply Hdis|discriminate]. }
  destruct (types_last c) as [[]|]; auto.
Qed.

(** X14.  [Token] never hands back anything but the package's elements:
    a start-element carries the name of one of the six type tags, an empty
    name space and at most one attribute, which is [name]; an end-element
    carries the name of a type tag; char-data is the text that was
    pending. *)
Theorem Token_emits_typed_elements c tk c' :
  Token c = (Ret tk, c') ->
  match tk with
  | StartElement name attr =>
      Space name = "" /\ In (Local name) ttypeNames_table /\
      (attr = [] \/
       exists key, attr = [ {| Name := {| Space := ""; Local := "name" |};
                               Value := key |} ])
  | EndElement name => Space name = "" /\ In (Local name) ttypeNames_table
  | CharData d => data c = Some d
  end.
Proof.
  intros HT. apply Token_shape in HT.
  assert (Hin : forall typ, In (ttypeNames typ) ttypeNames_table).
  { intros typ. destruct typ; cbv; auto 10. }
  destruct HT as [(typ & keyName & ->)|[(typ & ->)|(d & -> & Hd)]].
  - unfold start. split; [reflexivity|]. split; [apply Hin|].
    destruct keyName as [key|]; [right; now exists key|now left].
  - unfold stop. split; [reflexivity|apply Hin].
  - exact Hd.
Qed.

(** X9.  With a boolean, number, string or null on top of the stack and
    nothing pending, [Token] hands back the end-element of that type and
    pops it, without pulling from the decoder. *)
Theorem Token_scalar_end c t :
  data c = None -> types_last c = Some t -> is_container t = false ->
  Token c =
  (Ret (EndElement {| Space := ""; Local := ttypeNames t |}),
   {| decoder := decoder c;
      types := firstn (List.length (types c) - 1) (types c);
      data := None |}).
Proof.
  intros Hd Hl Ht. rewrite Token_unfold, Hd, Hl.
  destruct t; try discriminate Ht;
    rewrite (outputEnd_top c _ Hl); now rewrite Hd.
Qed.

(** X7.  A close delimiter that does not match is refused with
    [ErrInvalidToken], stack and pending slot unchanged: an object-close or
    an array-close pulled with an empty stack, and an object-close pulled
    with an array on top. *)
Theorem Token_stray_close c (delim : Z) j :
  data c = None ->
  decoder_Token (decoder c) = (inl (JDelim delim), j) ->
  (types c = [] /\ (delim = rbrace \/ delim = rbrack)) \/
  (types_last c = Some typArray /\ delim = rbrace) ->
  Token c = (Fail ErrInvalidToken,
             {| decoder := j; types := types c; data := data c |}).
Proof.
  intros Hd Hj Hcase.
  rewrite (Token_plain_value c (JDelim delim) j); trivial.
  - destruct Hcase as [[Hn [-> | ->]]|[Hl ->]]; simpl.
    + now apply close_empty.
    + now apply close_empty.
    + now apply close_mismatch with typArray.
  - destruct Hcase as [[Hn _]|[Hl _]]; [left|now right].
    unfold types_last. now rewrite Hn.
Qed.

(** X8.  At the top level or inside an array, a pulled token that is
    neither the start of a value nor a close delimiter (a delimiter other
    than the four, or a value of a foreign dynamic type) is refused with
    [ErrUnknownToken], stack and pending slot unchanged. *)
Theorem Token_unknown_token c token j :
  data c = None ->
  types c = [] \/ types_last c = Some typArray ->
  decoder_Token (decoder c) = (inl token, j) ->
  value_start token = false ->
  token <> JDelim rbrace -> token <> JDelim rbrack ->
  Token c = (Fail ErrUnknownToken,
             {| decoder := j; types := types c; data := data c |}).
Proof.
  intros Hd Hctx Hj Hv Hb Hk.
  rewrite (Token_plain_value c token j); trivial.
  - destruct token as [r|b|f|s|s| |dyn]; try discriminate Hv;
      [|reflexivity].
    simpl in Hv. apply orb_false_iff in Hv as [Hv1 Hv2].
    unfold dispatch. rewrite Hv1, Hv2.
    destruct (r =? rbrace)%Z eqn:E1.
    { apply Z.eqb_eq in E1. subst r. now destruct Hb. }
    destruct (r =? rbrack)%Z eqn:E2; [|reflexivity].
    apply Z.eqb_eq in E2. subst r. now destruct Hk.
  - destruct Hctx as [Hn|Hl]; [left|now right].
    unfold types_last. now rewrite Hn.
Qed.

(** The two pulls of a call, by what the decoder returns. *)
Lemma pull_cases c :
  (exists err j,
      decoder_Token (decoder c) = (inr err, j) /\
      pull c = (Fail err, set_decoder c j)) \/
  (exists token j,
      decoder_Token (decoder c) = (inl token, j) /\
      pull c =
      match types_last c with
      | Some typObject =>
          if not_rbrace token then member (set_decoder c j) token
          else dispatch (set_decoder c j) token None
      | _ => dispatch (set_decoder c j) token None
      end).
Proof.
  rewrite pull_unfold.
  destruct (decoder_Token (decoder c)) as [[token|err] j]; cbv zeta.
  - right. now exists token, j.
  - left. now exists err, j.
Qed.

Lemma member_cases c token :
  (member c token = (Fail ErrInvalidKey, c) /\
   forall s, token <> JString s) \/
  (exists key err j,
      token = JString key /\
      decoder_Token (decoder c) = (inr err, j) /\
      member c token = (Fail err, set_decoder c j)) \/
  (exists key token' j,
      token = JString key /\
      decoder_Token (decoder c) = (inl token', j) /\
      member c token = dispatch (set_decoder c j) token' (Some key)).
Proof.
  destruct token as [r0|b|f|s|key| |dyn];
    try (left; split; [reflexivity|discriminate]).
  right. unfold member.
  destruct (decoder_Token (decoder c)) as [[token'|err] j].
  - right. now exists key, token', j.
  - left. now exists key, err, j.
Qed.

(** X5.  An error returned by [Token] is one of the three package errors
    or, unchanged, the error the decoder returned to one of the two pulls
    of that call; in particular [Token] reports [io.EOF] only when the
    decoder did. *)
Theorem Token_error_origin c err c' :
  Token c = (Fail err, c') ->
  err = ErrInvalidKey \/ err = ErrUnknownToken \/ err = ErrInvalidToken \/
  (exists j, decoder_Token (decoder c) = (inr err, j)) \/
  (exists key j1 j2,
      decoder_Token (decoder c) = (inl (JString key), j1) /\
      decoder_Token j1 = (inr err, j2)).
Proof.
  rewrite Token_unfold. destruct (data c) as [d|] eqn:Hd; [discriminate|].
  assert (Hdis : forall c0 token keyName,
             data c0 = None ->
             dispatch c0 token keyName = (Fail err, c') ->
             err = ErrInvalidToken \/ err = ErrUnknownToken).
  { intros c0 token keyName Hd0 Hx.
    apply dispatch_effect in Hx as [_ Hx]; [|assumption].
    destruct Hx as [(typ & Hr & _)|[(typ & Hr & _)|[[Hr _]|[Hr _]]]];
      try discriminate Hr; injection Hr as ->; auto. }
  assert (Hend : outputEnd c = (Fail err, c') -> False).
  { intros Ho. apply outputEnd_effect in Ho as [(Hr & _)|(typ & Hr & _)];
      discriminate Hr. }
  assert (Hpull : pull c = (Fail err, c') ->
                  err = ErrInvalidKey \/ err = ErrUnknownToken \/
                  err = ErrInvalidToken \/
                  (exists j, decoder_Token (decoder c) = (inr err, j)) \/
                  (exists key j1 j2,
                      decoder_Token (decoder c) = (inl (JString key), j1) /\
                      decoder_Token j1 = (inr err, j2))).
  { destruct (pull_cases c) as [(e & j & Hj & ->)|(token & j & Hj & ->)].
    { intros [= <- _]. do 3 right. left. now exists j. }
    assert (Hplain : dispatch (set_decoder c j) token None =
                     (Fail err, c') ->
                     err = ErrInvalidKey \/ err = ErrUnknownToken \/
                     err = ErrInvalidToken \/
                     (exists j, decoder_Token (decoder c) = (inr err, j)) \/
                     (exists key j1 j2,
                         decoder_Token (decoder c) =
                         (inl (JString key), j1) /\
                         decoder_Token j1 = (inr err, j2))).
    { intros Hx. apply Hdis in Hx as [-> | ->]; auto. }
    destruct (types_last c) as [[]|]; trivial.
    destruct (not_rbrace token); trivial.
    destruct (member_cases (set_decoder c j) token)
      as [[-> _]|[(key & e & j2 & -> & Hj2 & ->)
                 |(key & token' & j2 & -> & Hj2 & ->)]].
    - intros [= <- _]. now left.
    - intros [= <- _]. do 4 right. now exists key, j, j2.
    - intros Hx. apply Hdis in Hx as [-> | ->]; auto. }
  destruct (types_last c) as [[]|]; intros HT; auto;
    now destruct (Hend HT).
Qed.

(** X13.  Pushing and popping undo each other: the end-element produced
    right after a start-element is the end-element of the same type, and
    it puts the stack back as it was before the start-element. *)
Theorem outputEnd_after_outputStart c typ d keyName :
  outputEnd (snd (outputStart c typ keyName)) =
  (Ret (stop typ),
   {| decoder := decoder c; types := types c; data := data c |}) /\
  outputEnd (snd (outputType c typ d keyName)) =
  (Ret (stop typ),
   {| decoder := decoder c; types := types c; data := d |}).
Proof.
  split; unfold outputType, outputStart, outputEnd, types_last; simpl;
    now rewrite last_snoc, init_snoc.
Qed.


(** ** Further invariants of the reachable states *)

Lemma Forall_prefix (A : Type) (P : A -> Prop) (n : nat) (l : list A) :
  Forall P l -> Forall P (firstn n l).
Proof.
  intros Hl. rewrite <- (firstn_skipn n l) in Hl.
  now apply Forall_app in Hl.
Qed.

Lemma Token_containers_below c r c' :
  Token c = (r, c') -> containers_below c -> containers_below c'.
Proof.
  intros HT Hb. pose proof (Token_effect c r c' HT) as He.
  unfold containers_below in *.
  destruct r as [[name attr|name|d]|err|]; simpl in He.
  - destruct He as (typ & _ & Ht & _). rewrite Ht, init_snoc.
    apply Token_start_top in HT as [Hn|[Hl|Hl]].
    + rewrite Hn. constructor.
    + rewrite (last_some_snoc _ _ _ Hl). apply Forall_app.
      split; [exact Hb|now repeat constructor].
    + rewrite (last_some_snoc _ _ _ Hl). apply Forall_app.
      split; [exact Hb|now repeat constructor].
  - destruct He as (typ & _ & Ht & _). rewrite Ht, init_snoc in Hb.
    now apply Forall_prefix.
  - destruct He as (_ & _ & Ht & _). now rewrite Ht.
  - destruct He as (Ht & _). now rewrite Ht.
  - destruct He.
Qed.

(** X4.  In every state a converter can reach, whatever the decoder
    yields: every entry of the stack below the top is an object or an
    array (a boolean, number, string or null is only ever on top), and
    char-data is pending only with a boolean, number or string on top. *)
Theorem reachable_stack_shape j c :
  reachable j c ->
  (forall t, In t (firstn (List.length (types c) - 1) (types c)) ->
             t = typObject \/ t = typArray) /\
  (data c <> None ->
   types_last c = Some typBool \/ types_last c = Some typNumber \/
   types_last c = Some typString).
Proof.
  intros Hr. split; [|now apply reachable_pending_ok with j].
  assert (Hb : containers_below c).
  { induction Hr as [|c r c' _ IH HT]; [constructor|].
    now apply Token_containers_below with c r. }
  intros t Hin. unfold containers_below in Hb.
  apply (proj1 (Forall_forall _ _) Hb) in Hin.
  destruct t; try discriminate Hin; auto.
Qed.

End MoreTokenFacts.

(** ** Further facts about runs *)

Section MoreRuns.

Context {J : Type} `{JSONDecoder J}.

Implicit Types (c : Converter J).

(** X1.  No call of [Token] panics, and neither does [Convert]: every
    index into the stack is guarded by a test of its length, in every
    state, reachable or not, and whatever the decoder and the encoder
    do. *)
Theorem index_never_out_of_range (X : Type) (E : XMLEncoder X) :
  (forall c, fst (Token c) <> Panic) /\
  (forall fuel c (x x' : X), Convert_loop fuel c x <> Some (Panicked, x')).
Proof.
  split.
  - exact Token_never_panics.
  - intros fuel c x x'. apply Convert_loop_never_panics.
Qed.

(** X2.  Whatever the decoder yields, well-formed or not: in the XML
    tokens handed back by successive calls on a new converter, every
    end-element carries the name of the most recent start-element not yet
    matched, and the start-elements still unmatched are exactly the
    entries of the stack, innermost first. *)
Theorem run_nesting j out c :
  steps (NewConverter j) out c ->
  nest [] out = Some (open_names (types c)).
Proof. intros Hs. now apply steps_nest in Hs. Qed.

(** X3.  Whatever the decoder yields: after any run on a new converter
    the start-elements handed back outnumber the end-elements by exactly
    the depth of the stack; end-elements never outnumber
    start-elements. *)
Theorem run_counting j out c :
  steps (NewConverter j) out c ->
  count_start out = count_end out + List.length (types c) /\
  count_end out <= count_start out.
Proof.
  intros Hs. apply steps_count in Hs. simpl in Hs. lia.
Qed.

Section AnyEncoder.

Context {X : Type} `{XMLEncoder X}.

Lemma Convert_loop_feed c out c' :
  steps c out c' ->
  forall n (x : X),
    Convert_loop (List.length out + n) c x =
    match feed x out with
    | (Some err, x') => Some (Done (Some err), x')
    | (None, x') => Convert_loop n c' x'
    end.
Proof.
  induction 1 as [|c tk c1 out c2 HT _ IH]; intros n x; [reflexivity|].
  simpl. rewrite HT.
  destruct (EncodeToken x tk) as [[err|] x1]; [reflexivity|apply IH].
Qed.

(** X12.  [Convert] hands the tokens of [Token] to the encoder one by
    one and stops at the first one the encoder refuses: it returns the
    encoder's error unchanged, the encoder has seen the tokens up to that
    one and no later one. *)
Theorem Convert_encoder_failure j out c n (x x' : X) err :
  steps (NewConverter j) out c ->
  feed x out = (Some err, x') ->
  Convert (List.length out + n) j x = Some (Done (Some err), x').
Proof.
  intros Hs Hf. unfold Convert. fold (NewConverter j).
  now rewrite (Convert_loop_feed _ _ _ Hs), Hf.
Qed.

(** X16.  [Convert] returns the first error of [Token]: after a run the
    encoder accepted in full, an error of [Token] ends the conversion with
    that error unchanged ([nil] for [io.EOF]), and the encoder has
    seen exactly the tokens handed back before it. *)
Theorem Convert_first_error j out c err c' n (x x' : X) :
  steps (NewConverter j) out c ->
  Token c = (Fail err, c') ->
  feed x out = (None, x') ->
  Convert (List.length out + S n) j x =
  Some (Done (if is_EOF err then None else Some err), x').
Proof.
  intros Hs HT Hf. unfold Convert. fold (NewConverter j).
  rewrite (Convert_loop_feed _ _ _ Hs), Hf. simpl. rewrite HT.
  now destruct (is_EOF err).
Qed.

(** More fuel does not change what the loop returns. *)
Lemma Convert_loop_more_fuel fuel :
  forall c (x : X) res k,
    Convert_loop fuel c x = Some res ->
    Convert_loop (fuel + k) c x = Some res.
Proof.
  induction fuel as [|fuel IH]; intros c x res k; simpl; [discriminate|].
  destruct (Token c) as [[tk|err|] c1]; trivial.
  destruct (EncodeToken x tk) as [[err|] x1]; trivial. apply IH.
Qed.

End AnyEncoder.

End MoreRuns.

(** ** Further facts about runs over a replayed token sequence *)

Section MoreScripted.

Implicit Types (c : Converter (list json_Token)).

Lemma Script_token (j j' : list json_Token) token :
  decoder_Token j = (inl token, j') -> j = token :: j'.
Proof. destruct j; simpl; [discriminate|]. now intros [= -> ->]. Qed.

Lemma Script_EOF (j j' : list json_Token) err :
  decoder_Token j = (inr err, j') -> j = [] /\ j' = [] /\ err = EOF.
Proof. destruct j; simpl; [|discriminate]. now intros [= <- <-]. Qed.

(** The tokens a pull takes from the sequence. *)
Lemma Script_reads_pull c r c' :
  data c = None -> pull c = (r, c') ->
  exists consumed,
    decoder c = consumed ++ decoder c' /\
    List.length consumed <= 2 /\
    (types_last c <> Some typObject -> List.length consumed <= 1) /\
    (forall name attr, r = Ret (StartElement name attr) -> consumed <> []).
Proof.
  intros Hd.
  assert (Hdis : forall j token keyName,
             dispatch (set_decoder c j) token keyName = (r, c') ->
             decoder c' = j).
  { intros j token keyName Hx.
    now apply dispatch_effect in Hx as [Hj _]. }
  destruct (pull_cases c) as [(e & j & Hj & ->)|(token & j & Hj & ->)].
  { apply Script_EOF in Hj as (Hn & -> & ->). intros [= <- <-].
    exists []. simpl.
    repeat split; auto; try discriminate; lia. }
  apply Script_token in Hj.
  assert (Hone : dispatch (set_decoder c j) token None = (r, c') ->
                 exists consumed,
                   decoder c = consumed ++ decoder c' /\
                   List.length consumed <= 2 /\
                   (types_last c <> Some typObject ->
                    List.length consumed <= 1) /\
                   (forall name attr,
                       r = Ret (StartElement name attr) ->
                       consumed <> [])).
  { intros Hx. apply Hdis in Hx. exists [token]. rewrite Hx. simpl.
    repeat split; auto; try discriminate. }
  destruct (types_last c) as [[]|] eqn:Hl; trivial.
  destruct (not_rbrace token); trivial.
  destruct (member_cases (set_decoder c j) token)
    as [[-> _]|[(key & e & j2 & -> & Hj2 & ->)
               |(key & token' & j2 & -> & Hj2 & ->)]].
  - intros [= <- <-]. exists [token]. simpl.
    repeat split; auto; try discriminate; intros Hne; now destruct Hne.
  - apply Script_EOF in Hj2 as (Hn & -> & ->). simpl in Hn.
    intros [= <- <-]. exists [JString key]. simpl. rewrite Hj, Hn.
    repeat split; auto; try discriminate; intros Hne; now destruct Hne.
  - apply Script_token in Hj2. simpl in Hj2. intros Hx.
    apply Hdis in Hx. exists [JString key; token'].
    rewrite Hx, Hj, Hj2. simpl.
    repeat split; auto; try discriminate; intros Hne; now destruct Hne.
Qed.

(** No call puts tokens back, and a call that hands back a start-element
    has taken at least one. *)
Lemma Script_shrinks c r c' :
  Token c = (r, c') ->
  List.length (decoder c') <= List.length (decoder c) /\
  (forall name attr,
      r = Ret (StartElement name attr) ->
      List.length (decoder c') < List.length (decoder c)).
Proof.
  rewrite Token_unfold. destruct (data c) as [d|] eqn:Hd.
  { intros [= <- <-]. split; [reflexivity|discriminate]. }
  assert (Hend : forall t, types_last c = Some t ->
                           outputEnd c = (r, c') ->
                           List.length (decoder c') <=
                           List.length (decoder c) /\
                           (forall name attr,
                               r = Ret (StartElement name attr) ->
                               List.length (decoder c') <
                               List.length (decoder c))).
  { intros t Hl. rewrite (outputEnd_top c t Hl). intros [= <- <-].
    split; [reflexivity|discriminate]. }
  assert (Hpull : pull c = (r, c') ->
                  List.length (decoder c') <= List.length (decoder c) /\
                  (forall name attr,
                      r = Ret (StartElement name attr) ->
                      List.length (decoder c') < List.length (decoder c))).
  { intros Hp.
    destruct (Script_reads_pull c r c' Hd Hp)
      as (consumed & Hc & _ & _ & Hs).
    rewrite Hc, length_app. split; [lia|].
    intros name attr Hr. apply Hs in Hr.
    destruct consumed; [now destruct Hr|]. simpl. lia. }
  destruct (types_last c) as [[]|] eqn:Hl; trivial;
    now apply (Hend _ eq_refl).
Qed.

(** X15.  [Token] never reads ahead: one call takes at most two tokens
    from the front of the sequence (a key and its value) and at most one
    unless an object is on top of the stack; it takes none while char-data
    is pending or a boolean, number, string or null is on top; and a call
    that hands back a start-element has taken at least one. *)
Theorem Token_reads_no_further c r c' :
  Token c = (r, c') ->
  exists consumed,
    decoder c = consumed ++ decoder c' /\
    List.length consumed <= 2 /\
    (data c <> None -> consumed = []) /\
    (forall t, types_last c = Some t -> is_container t = false ->
               consumed = []) /\
    (types_last c <> Some typObject -> List.length consumed <= 1) /\
    (forall name attr, r = Ret (StartElement name attr) -> consumed <> []).
Proof.
  intros HT.
  assert (Hnone : decoder c' = decoder c ->
                  (forall name attr, r <> Ret (StartElement name attr)) ->
                  exists consumed,
                    decoder c = consumed ++ decoder c' /\
                    List.length consumed <= 2 /\
                    (data c <> None -> consumed = []) /\
                    (forall t, types_last c = Some t ->
                               is_container t = false -> consumed = []) /\
                    (types_last c <> Some typObject ->
                     List.length consumed <= 1) /\
                    (forall name attr,
                        r = Ret (StartElement name attr) ->
                        consumed <> [])).
  { intros Hj Hr. exists []. rewrite Hj. simpl.
    repeat split; auto. intros name attr Hx. now destruct (Hr name attr). }
  revert HT. rewrite Token_unfold. destruct (data c) as [d|] eqn:Hd.
  { intros [= <- <-]. apply Hnone; [reflexivity|discriminate]. }
  assert (Hend : forall t, types_last c = Some t ->
                           outputEnd c = (r, c') ->
                           decoder c' = decoder c /\
                           forall name attr,
                             r <> Ret (StartElement name attr)).
  { intros t Hl. rewrite (outputEnd_top c t Hl). intros [= <- <-].
    split; [reflexivity|discriminate]. }
  assert (Hpull : is_container_top (types_last c) = true ->
                  pull c = (r, c') ->
                  exists consumed,
                    decoder c = consumed ++ decoder c' /\
                    List.length consumed <= 2 /\
                    (@None string <> None -> consumed = []) /\
                    (forall t, types_last c = Some t ->
                               is_container t = false -> consumed = []) /\
                    (types_last c <> Some typObject ->
                     List.length consumed <= 1) /\
                    (forall name attr,
                        r = Ret (StartElement name attr) ->
                        consumed <> [])).
  { intros Hc Hp.
    destruct (Script_reads_pull c r c' Hd Hp)
      as (consumed & H1 & H2 & H3 & H4).
    exists consumed. repeat split; auto; try congruence.
    intros t Hl Hf. rewrite Hl in Hc. simpl in Hc. congruence. }
  destruct (types_last c) as [t|] eqn:Hl.
  - destruct t; intros HT;
      try (apply Hpull; [reflexivity|exact HT]);
      destruct (Hend _ eq_refl HT) as [Hj Hr];
      destruct (Hnone Hj Hr) as (consumed & Hx);
      exists consumed; intuition congruence.
  - intros HT. now apply Hpull.
Qed.


(** Every call that hands back an XML token brings the conversion closer
    to its end. *)
Lemma Token_progress c tk c' :
  Token c = (Ret tk, c') -> progress c' < progress c.
Proof.
  intros HT. pose proof (Token_effect _ _ _ HT) as He.
  destruct (Script_shrinks _ _ _ HT) as [Hc Hs].
  unfold progress. destruct tk as [name attr|name|d]; simpl in He.
  - destruct He as (typ & _ & Ht & Hd & _).
    specialize (Hs name attr eq_refl).
    rewrite Ht, length_app, Hd. simpl. destruct (data c'); lia.
  - destruct He as (typ & _ & Ht & Hd & Hd').
    rewrite Ht, length_app, Hd, Hd'. simpl. lia.
  - destruct He as (Hd & Hd' & Ht & _). rewrite Hd, Hd', Ht. lia.
Qed.

Lemma Convert_loop_terminates (X : Type) (E : XMLEncoder X) fuel :
  forall c (x : X),
    progress c < fuel ->
    exists err x', Convert_loop fuel c x = Some (Done err, x').
Proof.
  induction fuel as [|fuel IH]; intros c x Hlt; [lia|].
  simpl. pose proof (Token_never_panics c) as Hp.
  destruct (Token c) as [[tk|err|] c1] eqn:HT.
  - destruct (EncodeToken x tk) as [[err|] x1]; [eauto|].
    apply IH. apply Token_progress in HT. lia.
  - destruct (is_EOF err); eauto.
  - now destruct Hp.
Qed.

(** X10.  Over a finite token sequence, well-formed or not, and with any
    encoder, [Convert] returns: three iterations of its loop per token and
    one more are enough, and it returns an error or [nil], never a
    panic. *)
Theorem Convert_terminates (X : Type) (E : XMLEncoder X)
        (ts : list json_Token) (x : X) (n : nat) :
  exists err x',
    Convert (3 * List.length ts + 1 + n) ts x = Some (Done err, x').
Proof.
  apply Convert_loop_terminates. unfold progress. simpl. lia.
Qed.

(** X6.  A well-formed value standing where a value may stand (after its
    key inside an object, or without a key inside an array or at the top
    level) is converted in place: the calls of [Token] consume exactly
    the tokens of the value (and of its key), hand back the XML of the
    value, and leave the stack and the pending slot as they were, so
    that [Convert] goes on with the rest of the sequence. *)
Theorem value_converted_in_place v keyName st rest n
        (x : list xml_Token) :
  expects st keyName ->
  steps (mkConverter (key_tokens keyName ++ tokens v ++ rest) st None)
        (xml_of keyName v)
        (mkConverter rest st None) /\
  Convert_loop (List.length (xml_of keyName v) + n)
               (mkConverter (key_tokens keyName ++ tokens v ++ rest) st None)
               x =
  Convert_loop n (mkConverter rest st None) (x ++ xml_of keyName v).
Proof.
  intros He. pose proof (value_steps v keyName st rest He) as Hs.
  split; [exact Hs|]. now apply Convert_loop_steps.
Qed.

(** The conversion of a stream of well-formed values, with fuel to
    spare. *)
Lemma Convert_stream (vs : list value) (n : nat) :
  Convert (List.length (flat_map (xml_of None) vs) + S n)
          (flat_map tokens vs) [] =
  Some (Done None, flat_map (xml_of None) vs).
Proof.
  pose proof (stream_steps vs []) as Hs. rewrite app_nil_r in Hs.
  unfold Convert. now rewrite (Convert_loop_steps _ _ _ Hs (S n) []).
Qed.

Lemma Convert_stream_result (vs : list value) fuel res :
  Convert fuel (flat_map tokens vs) [] = Some res ->
  res = (Done None, flat_map (xml_of None) vs).
Proof.
  intros Hc. unfold Convert in Hc.
  apply Convert_loop_more_fuel
    with (k := S (List.length (flat_map (xml_of None) vs))) in Hc.
  pose proof (Convert_stream vs fuel) as Hs. unfold Convert in Hs.
  replace (fuel + S (List.length (flat_map (xml_of None) vs)))
    with (List.length (flat_map (xml_of None) vs) + S fuel) in Hc by lia.
  congruence.
Qed.

Lemma xml_of_head keyName v :
  exists rest, xml_of keyName v = start (match v with
                                          | VObject _ => typObject
                                          | VArray _ => typArray
                                          | VBool _ => typBool
                                          | VFloat _ | VNumber _ => typNumber
                                          | VString _ => typString
                                          | VNull => typNull
                                          end) keyName :: rest.
Proof. destruct v; simpl; eauto. Qed.

End MoreScripted.

End Json2Xml.


(** * Concrete runs

    The runs below replay token sequences through [Script] with a decoder
    in [UseNumber] mode and record the output with [Recorder]. *)

(** The example of the package comment:
    [{"Location": {"Longitude": -1.8262, "Latitude": 51.1789}}]. *)
Example Convert_Location :
  Convert FormatFloat_UseNumber 20
          (tokens
             (VObject
                [("Location",
                  VObject [("Longitude", VNumber "-1.8262");
                           ("Latitude", VNumber "51.1789")])]))
          [] =
  Some (Done None,
        [start typObject None;
         start typObject (Some "Location");
         start typNumber (Some "Longitude"); CharData "-1.8262";
         stop typNumber;
         start typNumber (Some "Latitude"); CharData "51.1789";
         stop typNumber;
         stop typObject;
         stop typObject]).
Proof. reflexivity. Qed.

(** [true] alone is [<boolean>true</boolean>], [{}] is [<object></object>],
    [[]] is [<array></array>]. *)
Example Convert_small_documents :
  Convert FormatFloat_UseNumber 4 [JBool true] [] =
  Some (Done None, [start typBool None; CharData "true"; stop typBool]) /\
  Convert FormatFloat_UseNumber 3 [JDelim lbrace; JDelim rbrace] [] =
  Some (Done None, [start typObject None; stop typObject]) /\
  Convert FormatFloat_UseNumber 3 [JDelim lbrack; JDelim rbrack] [] =
  Some (Done None, [start typArray None; stop typArray]).
Proof. repeat split. Qed.

(** A close delimiter with nothing open, and a token of a foreign dynamic
    type, stop the conversion with the matching error. *)
Example Convert_errors :
  Convert FormatFloat_UseNumber 2 [JDelim rbrace] [] =
  Some (Done (Some ErrInvalidToken), []) /\
  Convert FormatFloat_UseNumber 2 [JDelim lbrack; JDelim rbrace] [] =
  Some (Done (Some ErrInvalidToken), [start typArray None]) /\
  Convert FormatFloat_UseNumber 2 [JOther "int"] [] =
  Some (Done (Some ErrUnknownToken), []) /\
  Convert FormatFloat_UseNumber 2 [JDelim (rune ":")] [] =
  Some (Done (Some ErrUnknownToken), []).
Proof. repeat split. Qed.

(** A converter state over a replayed sequence of [UseNumber] tokens. *)
Local Abbreviation state := (@mkConverter (list (@json_Token UseNumber))).

(** C1, as stated, fails: after [{], an array-close is pulled where a key is
    due, and [Token] fails with [ErrInvalidKey], not [ErrInvalidToken]. *)
Lemma Token_array_close_in_object_counterexample :
  reachable FormatFloat_UseNumber [JDelim lbrace; JDelim rbrack]
            (state [JDelim rbrack] [typObject] None) /\
  types_last (state [JDelim rbrack] [typObject] None) = Some typObject /\
  decoder_Token (decoder (state [JDelim rbrack] [typObject] None)) =
  (inl (JDelim rbrack), []) /\
  Token FormatFloat_UseNumber (state [JDelim rbrack] [typObject] None) =
  (Fail ErrInvalidKey, state [] [typObject] None) /\
  Fail ErrInvalidKey <> Fail ErrInvalidToken.
Proof.
  repeat split; [|discriminate].
  apply reach_Token
    with (c := NewConverter [JDelim lbrace; JDelim rbrack])
         (r := Ret (start typObject None));
    [constructor|reflexivity].
Qed.

(** After an object-open the converter waits for a member. *)
Lemma reachable_in_object (j : list (@json_Token UseNumber)) :
  reachable FormatFloat_UseNumber (JDelim lbrace :: j)
            (state j [typObject] None).
Proof.
  apply reach_Token
    with (c := NewConverter (JDelim lbrace :: j))
         (r := Ret (start typObject None));
    [constructor|reflexivity].
Qed.

(** The amended C1 on the sequences [{ ]] and [{ "k" ]]. *)
Lemma Token_array_close_in_object_witness :
  (reachable FormatFloat_UseNumber [JDelim lbrace; JDelim rbrack]
             (state [JDelim rbrack] [typObject] None) /\
   types_last (state [JDelim rbrack] [typObject] None) = Some typObject /\
   decoder_Token (decoder (state [JDelim rbrack] [typObject] None)) =
   (inl (JDelim rbrack), []) /\
   Token FormatFloat_UseNumber (state [JDelim rbrack] [typObject] None) =
   (Fail ErrInvalidKey, state [] [typObject] None)) /\
  (reachable FormatFloat_UseNumber
             [JDelim lbrace; JString "k"; JDelim rbrack]
             (state [JString "k"; JDelim rbrack] [typObject] None) /\
   types_last (state [JString "k"; JDelim rbrack] [typObject] None) =
   Some typObject /\
   decoder_Token
     (decoder (state [JString "k"; JDelim rbrack] [typObject] None)) =
   (inl (JString "k"), [JDelim rbrack]) /\
   decoder_Token (float64 := UseNumber) [JDelim rbrack] =
   (inl (JDelim rbrack), []) /\
   Token FormatFloat_UseNumber
         (state [JString "k"; JDelim rbrack] [typObject] None) =
   (Fail ErrInvalidToken, state [] [typObject] None)).
Proof.
  split.
  - split; [apply reachable_in_object|].
    split; [reflexivity|]. split; [reflexivity|].
    exact (proj1 (Token_array_close_in_object
                    FormatFloat_UseNumber _
                    (state [JDelim rbrack] [typObject] None)
                    (reachable_in_object _) eq_refl)
                 [] eq_refl).
  - split; [apply reachable_in_object|].
    split; [reflexivity|]. split; [reflexivity|]. split; [reflexivity|].
    exact (proj2 (Token_array_close_in_object
                    FormatFloat_UseNumber _
                    (state [JString "k"; JDelim rbrack] [typObject] None)
                    (reachable_in_object _) eq_refl)
                 "k" [JDelim rbrack] [] eq_refl eq_refl).
Defined.

(** C3, as stated, fails.  After [{] and the key ["k"], a token of a
    foreign dynamic type at the value position makes [Token] fail with
    [ErrUnknownToken], neither [ErrInvalidToken] nor [ErrInvalidKey]; and
    an object-close at the value position is not rejected at all: [Token]
    hands back the end-element of the object. *)
Lemma Token_bad_member_value_counterexample :
  (reachable FormatFloat_UseNumber
             [JDelim lbrace; JString "k"; JOther "int"]
             (state [JString "k"; JOther "int"] [typObject] None) /\
   value_start (float64 := UseNumber) (JOther "int") = false /\
   Token FormatFloat_UseNumber
         (state [JString "k"; JOther "int"] [typObject] None) =
   (Fail ErrUnknownToken, state [] [typObject] None) /\
   ErrUnknownToken <> ErrInvalidToken /\ ErrUnknownToken <> ErrInvalidKey) /\
  (reachable FormatFloat_UseNumber
             [JDelim lbrace; JString "k"; JDelim rbrace]
             (state [JString "k"; JDelim rbrace] [typObject] None) /\
   value_start (float64 := UseNumber) (JDelim rbrace) = false /\
   Token FormatFloat_UseNumber
         (state [JString "k"; JDelim rbrace] [typObject] None) =
   (Ret (EndElement {| Space := ""; Local := "object" |}),
    state [] [] None)).
Proof.
  split.
  - split; [apply reachable_in_object|].
    split; [reflexivity|]. split; [reflexivity|]. split; discriminate.
  - split; [apply reachable_in_object|].
    split; reflexivity.
Qed.

(** The amended C3 on [{ "k" :], a colon delimiter as the value. *)
Lemma Token_bad_member_value_witness :
  data (state [JString "k"; JDelim (rune ":")] [typObject] None) = None /\
  types_last (state [JString "k"; JDelim (rune ":")] [typObject] None) =
  Some typObject /\
  decoder_Token
    (decoder (state [JString "k"; JDelim (rune ":")] [typObject] None)) =
  (inl (JString "k"), [JDelim (rune ":")]) /\
  decoder_Token (float64 := UseNumber) [JDelim (rune ":")] =
  (inl (JDelim (rune ":")), []) /\
  value_start (float64 := UseNumber) (JDelim (rune ":")) = false /\
  JDelim (float64 := UseNumber) (rune ":") <> JDelim rbrace /\
  Token FormatFloat_UseNumber
        (state [JString "k"; JDelim (rune ":")] [typObject] None) =
  (Fail ErrUnknownToken, state [] [typObject] None).
Proof.
  do 5 (split; [reflexivity|]). split; [discriminate|].
  refine (Token_bad_member_value
            FormatFloat_UseNumber
            (state [JString "k"; JDelim (rune ":")] [typObject] None)
            "k" [JDelim (rune ":")] (JDelim (rune ":")) []
            eq_refl eq_refl eq_refl eq_refl eq_refl _).
  discriminate.
Defined.

(** C10 on [{ "k" ]]: the error leaves the stack [[object]] in place. *)
Lemma Token_error_keeps_state_witness :
  Token FormatFloat_UseNumber
        (state [JString "k"; JDelim rbrack] [typObject] None) =
  (Fail ErrInvalidToken, state [] [typObject] None) /\
  types (state [] [typObject] None) =
  types (state [JString "k"; JDelim rbrack] [typObject] None) /\
  data (state [] [typObject] None) =
  data (state [JString "k"; JDelim rbrack] [typObject] None).
Proof.
  split; [reflexivity|].
  exact (Token_error_keeps_state
           FormatFloat_UseNumber
           (state [JString "k"; JDelim rbrack] [typObject] None)
           ErrInvalidToken (state [] [typObject] None) eq_refl).
Defined.


(** C6 on the member ["Longitude": -1.8262] of an open object. *)
Lemma Token_name_attribute_witness :
  Token FormatFloat_UseNumber
        (state [JString "Longitude"; JNumber "-1.8262"] [typObject] None) =
  (Ret (StartElement
          {| Space := ""; Local := "number" |}
          [ {| Name := {| Space := ""; Local := "name" |};
               Value := "Longitude" |} ]),
   state [] [typObject; typNumber] (Some "-1.8262")) /\
  ([ {| Name := {| Space := ""; Local := "name" |};
        Value := "Longitude" |} ] <> [] <->
   types_last
     (state [JString "Longitude"; JNumber "-1.8262"] [typObject] None) =
   Some typObject).
Proof.
  split; [reflexivity|].
  exact (proj1 (Token_name_attribute
                  FormatFloat_UseNumber
                  (state [JString "Longitude"; JNumber "-1.8262"]
                         [typObject] None)
                  {| Space := ""; Local := "number" |}
                  [ {| Name := {| Space := ""; Local := "name" |};
                       Value := "Longitude" |} ]
                  (state [] [typObject; typNumber] (Some "-1.8262"))
                  eq_refl)).
Defined.

(** C8 on a number where the key of a member is due. *)
Lemma Token_non_string_key_witness :
  data (state [JNumber "1"; JNil] [typObject] None) = None /\
  types_last (state [JNumber "1"; JNil] [typObject] None) =
  Some typObject /\
  decoder_Token (decoder (state [JNumber "1"; JNil] [typObject] None)) =
  (inl (JNumber "1"), [JNil]) /\
  JNumber (float64 := UseNumber) "1" <> JDelim rbrace /\
  (forall s, JNumber (float64 := UseNumber) "1" <> JString s) /\
  Token FormatFloat_UseNumber (state [JNumber "1"; JNil] [typObject] None) =
  (Fail ErrInvalidKey, state [JNil] [typObject] None).
Proof.
  do 3 (split; [reflexivity|]). split; [discriminate|].
  split; [discriminate|].
  refine (Token_non_string_key
            FormatFloat_UseNumber
            (state [JNumber "1"; JNil] [typObject] None)
            (JNumber "1") [JNil] eq_refl eq_refl eq_refl _ _);
    discriminate.
Defined.

(** C9 on streams that end inside an object, an array, or after a key,
    and on the truncated sequence [[ {]. *)
Lemma Convert_EOF_is_success_witness :
  (Token FormatFloat_UseNumber (state [] [typObject] None) =
   (Fail EOF, state [] [typObject] None) /\
   Convert_loop FormatFloat_UseNumber 1 (state [] [typObject] None)
                [start typObject None] =
   Some (Done None, [start typObject None])) /\
  (data (state [] [typArray] None) = None /\
   (types_last (state [] [typArray] None) = Some typObject \/
    types_last (state [] [typArray] None) = Some typArray) /\
   decoder_Token (decoder (state [] [typArray] None)) = (inr EOF, []) /\
   types (state [] [typArray] None) <> [] /\
   Convert_loop FormatFloat_UseNumber 1 (state [] [typArray] None)
                [start typArray None] =
   Some (Done None, [start typArray None])) /\
  (data (state [JString "k"] [typObject] None) = None /\
   types_last (state [JString "k"] [typObject] None) = Some typObject /\
   decoder_Token (decoder (state [JString "k"] [typObject] None)) =
   (inl (JString "k"), []) /\
   decoder_Token (float64 := UseNumber) [] = (inr EOF, []) /\
   types (state [JString "k"] [typObject] None) <> [] /\
   Convert_loop FormatFloat_UseNumber 1 (state [JString "k"] [typObject] None)
                [start typObject None] =
   Some (Done None, [start typObject None])) /\
  (steps FormatFloat_UseNumber
         (NewConverter [JDelim lbrack; JDelim lbrace])
         [start typArray None; start typObject None]
         (state [] [typArray; typObject] None) /\
   Token FormatFloat_UseNumber (state [] [typArray; typObject] None) =
   (Fail EOF, state [] [typArray; typObject] None) /\
   Convert FormatFloat_UseNumber 3 [JDelim lbrack; JDelim lbrace] [] =
   Some (Done None, [start typArray None; start typObject None])).
Proof.
  split; [|split; [|split]].
  - split; [reflexivity|].
    exact (proj1 (Convert_EOF_is_success
                    FormatFloat_UseNumber (list xml_Token) Recorder)
                 0 (state [] [typObject] None) (state [] [typObject] None)
                 [start typObject None] eq_refl).
  - do 3 (split; [auto|]).
    exact (proj1 (proj2 (Convert_EOF_is_success
                           FormatFloat_UseNumber (list xml_Token) Recorder))
                 0 (state [] [typArray] None) []
                 [start typArray None] eq_refl (or_intror eq_refl) eq_refl).
  - do 4 (split; [reflexivity|]).
    exact (proj1 (proj2 (proj2 (Convert_EOF_is_success
                                  FormatFloat_UseNumber
                                  (list xml_Token) Recorder)))
                 0 (state [JString "k"] [typObject] None) "k" [] []
                 [start typObject None] eq_refl eq_refl eq_refl eq_refl).
  - assert (Hs : steps FormatFloat_UseNumber
                       (NewConverter [JDelim lbrack; JDelim lbrace])
                       [start typArray None; start typObject None]
                       (state [] [typArray; typObject] None)).
    { apply steps_cons with (state [JDelim lbrace] [typArray] None);
        [reflexivity|].
      apply steps_cons with (state [] [typArray; typObject] None);
        [reflexivity|constructor]. }
    split; [exact Hs|]. split; [reflexivity|].
    exact (proj2 (proj2 (proj2 (Convert_EOF_is_success
                                  FormatFloat_UseNumber
                                  (list xml_Token) Recorder)))
                 [JDelim lbrack; JDelim lbrace]
                 [start typArray None; start typObject None]
                 (state [] [typArray; typObject] None)
                 (state [] [typArray; typObject] None) 0 Hs eq_refl).
Defined.

(** C5 with three iterations of the loop. *)
Lemma Convert_null_witness :
  reachable FormatFloat_UseNumber [JNil] (state [] [typNull] None) /\
  Convert FormatFloat_UseNumber 3 [JNil] [] =
  Some (Done None,
        [StartElement {| Space := ""; Local := "null" |} [];
         EndElement {| Space := ""; Local := "null" |}]) /\
  data (state [] [typNull] None) = None.
Proof.
  assert (Hr : reachable FormatFloat_UseNumber [JNil]
                         (state [] [typNull] None)).
  { apply reach_Token
      with (c := NewConverter [JNil]) (r := Ret (start typNull None));
      [constructor|reflexivity]. }
  split; [exact Hr|]. split.
  - exact (proj1 (Convert_null FormatFloat_UseNumber 0)).
  - exact (proj2 (Convert_null FormatFloat_UseNumber 0) _ Hr).
Defined.


(** * Documents in [UseNumber] mode

    With numbers arriving as [json.Number], no two documents share their
    XML: the element names tell the types apart, the [name] attributes
    carry the keys and the char-data the scalars. *)

Lemma start_inj typ keyName typ' keyName' :
  start typ keyName = start typ' keyName' ->
  typ = typ' /\ keyName = keyName'.
Proof.
  unfold start. intros [= Hn Ha]. apply ttypeNames_inj in Hn.
  split; [exact Hn|].
  destruct keyName, keyName'; try discriminate Ha; [|reflexivity].
  now injection Ha as ->.
Qed.

Lemma cons_eq_inv (A : Type) (a b : A) (l l' : list A) :
  a :: l = b :: l' -> a = b /\ l = l'.
Proof. now intros [= -> ->]. Qed.

(** The XML of a value is never a proper prefix of the XML of another. *)
Lemma xml_of_prefix_free (v : @value UseNumber) :
  forall keyName v' keyName' r r',
    xml_of FormatFloat_UseNumber keyName v ++ r =
    xml_of FormatFloat_UseNumber keyName' v' ++ r' ->
    keyName = keyName' /\ v = v' /\ r = r'.
Proof.
  induction v as [members IH|elems IH|b|f|s|s|] using value_nested_ind;
    intros keyName v' keyName' r r' Heq;
    try (now destruct f);
    destruct v' as [members'|elems'|b'|f'|s'|s'|];
    try (now destruct f');
    cbn [xml_of app] in Heq; apply cons_eq_inv in Heq as [Hs Heq];
    apply start_inj in Hs as [Ht ->]; try discriminate Ht.
  - (* object *)
    rewrite <- !app_assoc in Heq.
    assert (Hm : members = members' /\ r = r').
    { clear Ht. revert members' Heq.
      induction IH as [|[key v] members Hv _ IHm];
        intros [|[key' v'] members'] Heq; simpl in Heq.
      - now injection Heq as ->.
      - destruct (xml_of_head FormatFloat_UseNumber (Some key') v')
          as [rest Hh].
        rewrite Hh in Heq. discriminate Heq.
      - destruct (xml_of_head FormatFloat_UseNumber (Some key) v)
          as [rest Hh].
        rewrite Hh in Heq. discriminate Heq.
      - rewrite <- !app_assoc in Heq. simpl in Hv.
        apply Hv in Heq as (Hk & -> & Heq). injection Hk as ->.
        apply IHm in Heq as [-> ->]. now split. }
    destruct Hm as [-> ->]. now repeat split.
  - (* array *)
    rewrite <- !app_assoc in Heq.
    assert (Hm : elems = elems' /\ r = r').
    { clear Ht. revert elems' Heq.
      induction IH as [|v elems Hv _ IHe];
        intros [|v' elems'] Heq; simpl in Heq.
      - now injection Heq as ->.
      - destruct (xml_of_head FormatFloat_UseNumber None v') as [rest Hh].
        rewrite Hh in Heq. discriminate Heq.
      - destruct (xml_of_head FormatFloat_UseNumber None v) as [rest Hh].
        rewrite Hh in Heq. discriminate Heq.
      - rewrite <- !app_assoc in Heq.
        apply Hv in Heq as (_ & -> & Heq).
        apply IHe in Heq as [-> ->]. now split. }
    destruct Hm as [-> ->]. now repeat split.
  - (* boolean *)
    injection Heq as Hb ->.
    destruct b, b'; try discriminate Hb; now repeat split.
  - (* json.Number *)
    injection Heq as -> ->. now repeat split.
  - (* string *)
    injection Heq as -> ->. now repeat split.
  - (* null *)
    injection Heq as ->. now repeat split.
Qed.

Lemma xml_of_stream_injective (vs : list (@value UseNumber)) :
  forall vs',
    flat_map (xml_of FormatFloat_UseNumber None) vs =
    flat_map (xml_of FormatFloat_UseNumber None) vs' ->
    vs = vs'.
Proof.
  induction vs as [|v vs IH]; intros [|v' vs'] Heq; simpl in Heq.
  - reflexivity.
  - destruct (xml_of_head FormatFloat_UseNumber None v') as [rest Hh].
    rewrite Hh in Heq. discriminate Heq.
  - destruct (xml_of_head FormatFloat_UseNumber None v) as [rest Hh].
    rewrite Hh in Heq. discriminate Heq.
  - apply xml_of_prefix_free in Heq as (_ & -> & Heq).
    now rewrite (IH vs' Heq).
Qed.

(** X11.  With a decoder in [UseNumber] mode the conversion loses
    nothing: two streams of well-formed JSON values that [Convert] turns
    into the same XML tokens are the same stream (same values, same keys in
    the same order, same scalar texts). *)
Theorem Convert_injective (vs vs' : list (@value UseNumber))
        (fuel fuel' : nat) res :
  Convert FormatFloat_UseNumber fuel (flat_map tokens vs) [] = Some res ->
  Convert FormatFloat_UseNumber fuel' (flat_map tokens vs') [] = Some res ->
  vs = vs'.
Proof.
  intros H1 H2.
  apply Convert_stream_result in H1, H2.
  apply xml_of_stream_injective. congruence.
Qed.

(** X11 on the lone value [null], converted with two different bounds. *)
Lemma Convert_injective_witness :
  Convert FormatFloat_UseNumber 3 (flat_map tokens [VNull]) [] =
  Some (Done None, [start typNull None; stop typNull]) /\
  Convert FormatFloat_UseNumber 5 (flat_map tokens [VNull]) [] =
  Some (Done None, [start typNull None; stop typNull]) /\
  [@VNull UseNumber] = [VNull].
Proof.
  split; [reflexivity|]. split; [reflexivity|].
  exact (Convert_injective [VNull] [VNull] 3 5
           (Done None, [start typNull None; stop typNull])
           eq_refl eq_refl).
Defined.

(** * Concrete runs for the further facts *)

(** X14 on the member ["k": null] of an open object. *)
Lemma Token_emits_typed_elements_witness :
  Token FormatFloat_UseNumber (state [JString "k"; JNil] [typObject] None) =
  (Ret (StartElement
          {| Space := ""; Local := "null" |}
          [ {| Name := {| Space := ""; Local := "name" |};
               Value := "k" |} ]),
   state [] [typObject; typNull] None) /\
  Space {| Space := ""; Local := "null" |} = "" /\
  In (Local {| Space := ""; Local := "null" |}) ttypeNames_table /\
  ([ {| Name := {| Space := ""; Local := "name" |}; Value := "k" |} ] = [] \/
   exists key,
     [ {| Name := {| Space := ""; Local := "name" |}; Value := "k" |} ] =
     [ {| Name := {| Space := ""; Local := "name" |}; Value := key |} ]).
Proof.
  split; [reflexivity|].
  exact (Token_emits_typed_elements
           FormatFloat_UseNumber
           (state [JString "k"; JNil] [typObject] None)
           (StartElement
              {| Space := ""; Local := "null" |}
              [ {| Name := {| Space := ""; Local := "name" |};
                   Value := "k" |} ])
           (state [] [typObject; typNull] None) eq_refl).
Defined.

(** X9 on a [null] inside an array, before the array is closed. *)
Lemma Token_scalar_end_witness :
  data (state [JDelim rbrack] [typArray; typNull] None) = None /\
  types_last (state [JDelim rbrack] [typArray; typNull] None) =
  Some typNull /\
  is_container typNull = false /\
  Token FormatFloat_UseNumber
        (state [JDelim rbrack] [typArray; typNull] None) =
  (Ret (EndElement {| Space := ""; Local := "null" |}),
   state [JDelim rbrack] [typArray] None).
Proof.
  do 3 (split; [reflexivity|]).
  exact (Token_scalar_end
           FormatFloat_UseNumber
           (state [JDelim rbrack] [typArray; typNull] None) typNull
           eq_refl eq_refl eq_refl).
Defined.

(** X7 on an object-close pulled inside an array. *)
Lemma Token_stray_close_witness :
  data (state [JDelim rbrace] [typArray] None) = None /\
  decoder_Token (decoder (state [JDelim rbrace] [typArray] None)) =
  (inl (JDelim rbrace), []) /\
  types_last (state [JDelim rbrace] [typArray] None) = Some typArray /\
  Token FormatFloat_UseNumber (state [JDelim rbrace] [typArray] None) =
  (Fail ErrInvalidToken, state [] [typArray] None).
Proof.
  do 3 (split; [reflexivity|]).
  exact (Token_stray_close
           FormatFloat_UseNumber
           (state [JDelim rbrace] [typArray] None) rbrace []
           eq_refl eq_refl (or_intror (conj eq_refl eq_refl))).
Defined.

(** X8 on a comma delimiter pulled inside an array. *)
Lemma Token_unknown_token_witness :
  data (state [JDelim (rune ","); JNil] [typArray] None) = None /\
  types_last (state [JDelim (rune ","); JNil] [typArray] None) =
  Some typArray /\
  decoder_Token
    (decoder (state [JDelim (rune ","); JNil] [typArray] None)) =
  (inl (JDelim (rune ",")), [JNil]) /\
  value_start (float64 := UseNumber) (JDelim (rune ",")) = false /\
  JDelim (float64 := UseNumber) (rune ",") <> JDelim rbrace /\
  JDelim (float64 := UseNumber) (rune ",") <> JDelim rbrack /\
  Token FormatFloat_UseNumber
        (state [JDelim (rune ","); JNil] [typArray] None) =
  (Fail ErrUnknownToken, state [JNil] [typArray] None).
Proof.
  do 4 (split; [reflexivity|]).
  split; [discriminate|]. split; [discriminate|].
  refine (Token_unknown_token
            FormatFloat_UseNumber
            (state [JDelim (rune ","); JNil] [typArray] None)
            (JDelim (rune ",")) [JNil]
            eq_refl (or_intror eq_refl) eq_refl eq_refl _ _);
    discriminate.
Defined.

(** X5 on a sequence that ends after a key: the [io.EOF] of the second
    pull. *)
Lemma Token_error_origin_witness :
  Token FormatFloat_UseNumber (state [JString "k"] [typObject] None) =
  (Fail EOF, state [] [typObject] None) /\
  (EOF = ErrInvalidKey \/ EOF = ErrUnknownToken \/ EOF = ErrInvalidToken \/
   (exists j,
       decoder_Token (decoder (state [JString "k"] [typObject] None)) =
       (inr EOF, j)) \/
   (exists key j1 j2,
       decoder_Token (decoder (state [JString "k"] [typObject] None)) =
       (inl (JString key), j1) /\
       decoder_Token j1 = (inr EOF, j2))).
Proof.
  split; [reflexivity|].
  exact (Token_error_origin
           FormatFloat_UseNumber
           (state [JString "k"] [typObject] None) EOF
           (state [] [typObject] None) eq_refl).
Defined.

(** After [{ "k" true] the stack is [[object; boolean]] with ["true"]
    pending. *)
Lemma reachable_pending_bool :
  reachable FormatFloat_UseNumber
            [JDelim lbrace; JString "k"; JBool true]
            (state [] [typObject; typBool] (Some "true")).
Proof.
  apply reach_Token
    with (c := state [JString "k"; JBool true] [typObject] None)
         (r := Ret (start typBool (Some "k")));
    [apply reachable_in_object|reflexivity].
Qed.

(** X4 on the state reached after [{ "k" true]. *)
Lemma reachable_stack_shape_witness :
  reachable FormatFloat_UseNumber
            [JDelim lbrace; JString "k"; JBool true]
            (state [] [typObject; typBool] (Some "true")) /\
  (forall t,
      In t (firstn
              (List.length
                 (types (state [] [typObject; typBool] (Some "true"))) - 1)
              (types (state [] [typObject; typBool] (Some "true")))) ->
      t = typObject \/ t = typArray) /\
  (typObject = typObject \/ typObject = typArray) /\
  (types_last (state [] [typObject; typBool] (Some "true")) = Some typBool \/
   types_last (state [] [typObject; typBool] (Some "true")) =
   Some typNumber \/
   types_last (state [] [typObject; typBool] (Some "true")) =
   Some typString).
Proof.
  split; [exact reachable_pending_bool|].
  split; [|split].
  - exact (proj1 (reachable_stack_shape
                    FormatFloat_UseNumber _ _ reachable_pending_bool)).
  - exact (proj1 (reachable_stack_shape
                    FormatFloat_UseNumber _ _ reachable_pending_bool)
                 typObject (or_introl eq_refl)).
  - refine (proj2 (reachable_stack_shape
                     FormatFloat_UseNumber _ _ reachable_pending_bool) _).
    discriminate.
Defined.

(** The run over [[ null }], up to the stray object-close. *)
Lemma steps_array_null :
  steps FormatFloat_UseNumber
        (NewConverter [JDelim lbrack; JNil; JDelim rbrace])
        [start typArray None; start typNull None; stop typNull]
        (state [JDelim rbrace] [typArray] None).
Proof.
  apply steps_cons with (state [JNil; JDelim rbrace] [typArray] None);
    [reflexivity|].
  apply steps_cons with (state [JDelim rbrace] [typArray; typNull] None);
    [reflexivity|].
  apply steps_cons with (state [JDelim rbrace] [typArray] None);
    [reflexivity|constructor].
Qed.

(** X2 on the run over [[ null }]. *)
Lemma run_nesting_witness :
  steps FormatFloat_UseNumber
        (NewConverter [JDelim lbrack; JNil; JDelim rbrace])
        [start typArray None; start typNull None; stop typNull]
        (state [JDelim rbrace] [typArray] None) /\
  nest [] [start typArray None; start typNull None; stop typNull] =
  Some (open_names (types (state [JDelim rbrace] [typArray] None))).
Proof.
  split; [exact steps_array_null|].
  exact (run_nesting FormatFloat_UseNumber _ _ _ steps_array_null).
Defined.

(** X3 on the run over [[ null }]. *)
Lemma run_counting_witness :
  steps FormatFloat_UseNumber
        (NewConverter [JDelim lbrack; JNil; JDelim rbrace])
        [start typArray None; start typNull None; stop typNull]
        (state [JDelim rbrace] [typArray] None) /\
  count_start [start typArray None; start typNull None; stop typNull] =
  count_end [start typArray None; start typNull None; stop typNull] +
  List.length (types (state [JDelim rbrace] [typArray] None)) /\
  count_end [start typArray None; start typNull None; stop typNull] <=
  count_start [start typArray None; start typNull None; stop typNull].
Proof.
  split; [exact steps_array_null|].
  exact (run_counting FormatFloat_UseNumber _ _ _ steps_array_null).
Defined.

(** X16 on [[ null }]: the stray object-close ends the conversion with
    [ErrInvalidToken], after the three tokens of the run. *)
Lemma Convert_first_error_witness :
  steps FormatFloat_UseNumber
        (NewConverter [JDelim lbrack; JNil; JDelim rbrace])
        [start typArray None; start typNull None; stop typNull]
        (state [JDelim rbrace] [typArray] None) /\
  Token FormatFloat_UseNumber (state [JDelim rbrace] [typArray] None) =
  (Fail ErrInvalidToken, state [] [typArray] None) /\
  feed (X := list xml_Token) []
       [start typArray None; start typNull None; stop typNull] =
  (None, [start typArray None; start typNull None; stop typNull]) /\
  Convert FormatFloat_UseNumber 4 [JDelim lbrack; JNil; JDelim rbrace]
          ([] : list xml_Token) =
  Some (Done (Some ErrInvalidToken),
        [start typArray None; start typNull None; stop typNull]).
Proof.
  split; [exact steps_array_null|]. do 2 (split; [reflexivity|]).
  exact (Convert_first_error
           FormatFloat_UseNumber
           [JDelim lbrack; JNil; JDelim rbrace]
           [start typArray None; start typNull None; stop typNull]
           (state [JDelim rbrace] [typArray] None)
           ErrInvalidToken (state [] [typArray] None) 0
           [] [start typArray None; start typNull None; stop typNull]
           steps_array_null eq_refl eq_refl).
Defined.

(** X12 on [[ null }] with an encoder that has room for two tokens. *)
Lemma Convert_encoder_failure_witness :
  steps FormatFloat_UseNumber
        (NewConverter [JDelim lbrack; JNil; JDelim rbrace])
        [start typArray None; start typNull None; stop typNull]
        (state [JDelim rbrace] [typArray] None) /\
  feed (2, [])
       [start typArray None; start typNull None; stop typNull] =
  (Some (ErrForeign "short write"),
   (0, [start typArray None; start typNull None])) /\
  Convert FormatFloat_UseNumber 3 [JDelim lbrack; JNil; JDelim rbrace]
          (2, []) =
  Some (Done (Some (ErrForeign "short write")),
        (0, [start typArray None; start typNull None])).
Proof.
  split; [exact steps_array_null|]. split; [reflexivity|].
  exact (Convert_encoder_failure
           FormatFloat_UseNumber
           [JDelim lbrack; JNil; JDelim rbrace]
           [start typArray None; start typNull None; stop typNull]
           (state [JDelim rbrace] [typArray] None) 0
           (2, []) (0, [start typArray None; start typNull None])
           (ErrForeign "short write")
           steps_array_null eq_refl).
Defined.

(** X15 on the member ["k": null] of an open object: two tokens are
    taken. *)
Lemma Token_reads_no_further_witness :
  Token FormatFloat_UseNumber
        (state [JString "k"; JNil; JDelim rbrace] [typObject] None) =
  (Ret (start typNull (Some "k")),
   state [JDelim rbrace] [typObject; typNull] None) /\
  exists consumed,
    decoder (state [JString "k"; JNil; JDelim rbrace] [typObject] None) =
    consumed ++
    decoder (state [JDelim rbrace] [typObject; typNull] None) /\
    List.length consumed <= 2.
Proof.
  split; [reflexivity|].
  destruct (Token_reads_no_further
              FormatFloat_UseNumber
              (state [JString "k"; JNil; JDelim rbrace] [typObject] None)
              (Ret (start typNull (Some "k")))
              (state [JDelim rbrace] [typObject; typNull] None) eq_refl)
    as (consumed & Hc & Hl & _).
  exists consumed. split; [exact Hc|exact Hl].
Defined.

(** X6 on the member ["k": [null]] of an open object. *)
Lemma value_converted_in_place_witness :
  expects [typObject] (Some "k") /\
  steps FormatFloat_UseNumber
        (state (key_tokens (Some "k") ++ tokens (VArray [VNull])
                  ++ [JDelim rbrace])
               [typObject] None)
        (xml_of FormatFloat_UseNumber (Some "k") (VArray [VNull]))
        (state [JDelim rbrace] [typObject] None) /\
  Convert_loop FormatFloat_UseNumber
               (List.length
                  (xml_of FormatFloat_UseNumber (Some "k") (VArray [VNull]))
                + 0)
               (state (key_tokens (Some "k") ++ tokens (VArray [VNull])
                         ++ [JDelim rbrace])
                      [typObject] None)
               [] =
  Convert_loop FormatFloat_UseNumber 0
               (state [JDelim rbrace] [typObject] None)
               ([] ++ xml_of FormatFloat_UseNumber (Some "k")
                             (VArray [VNull])).
Proof.
  split; [reflexivity|].
  exact (value_converted_in_place
           FormatFloat_UseNumber (VArray [VNull]) (Some "k")
           [typObject] [JDelim rbrace] 0 [] eq_refl).
Defined.

